(** * NowhereSplash: [process_images.py]

    A shallow embedding of the template scanner, the field extractor, the
    file-name sanitizer and the asset filters of [src/process_images.py],
    and the properties of the specification checked against them.

    Modelling conventions.
    - A Python [str] is the list of its Unicode code points ([list N]);
      lengths and indices count code points, as in Python.  String
      literals are written in UTF-8 and decoded by [lit].
    - Whitespace is the set [str.isspace], [str.strip] and the class [\s]
      of [re] share; it is written out in [isspace].
    - [str.lower] is a built-in whose case tables are not part of the
      source: it is a parameter, [lowering], with the facts about it the
      proofs use.
    - The HTTP exchange of [get_template_field] is a function from page
      titles to an [api_response]; a request that raises, and every
      operation on the decoded JSON that raises, gives [Raises]; [print]
      calls are dropped.
    - The [while ... else] loop runs on explicit state with fuel; the fuel
      handed to it is proved sufficient. *)

From Stdlib Require Import String Ascii NArith ZArith Bool Arith List Lia.
Import ListNotations.

(** ** Python string primitives *)

Module Py.

(** A code point. *)
Definition char := N.

Definition str := list char.

(** The code point of an ASCII character. *)
Definition chr (a : ascii) : char := N_of_ascii a.

(** UTF-8, for the literals of this file. *)
Fixpoint utf8_decode (bytes : list N) : str :=
  match bytes with
  | [] => []
  | b0 :: r0 =>
      if (b0 <? 128)%N then b0 :: utf8_decode r0
      else
        match r0 with
        | [] => [b0]
        | b1 :: r1 =>
            if (b0 <? 224)%N
            then ((b0 - 192) * 64 + (b1 - 128))%N :: utf8_decode r1
            else
              match r1 with
              | [] => [b0]
              | b2 :: r2 =>
                  if (b0 <? 240)%N
                  then ((b0 - 224) * 4096 + (b1 - 128) * 64 + (b2 - 128))%N
                       :: utf8_decode r2
                  else
                    match r2 with
                    | [] => [b0]
                    | b3 :: r3 =>
                        ((b0 - 240) * 262144 + (b1 - 128) * 4096
                         + (b2 - 128) * 64 + (b3 - 128))%N
                        :: utf8_decode r3
                    end
              end
        end
  end.

Definition lit (s : string) : str :=
  utf8_decode (map N_of_ascii (list_ascii_of_string s)).

Definition char_eqb (a b : char) : bool := N.eqb a b.

Fixpoint str_eqb (a b : str) : bool :=
  match a, b with
  | [], [] => true
  | x :: a', y :: b' => char_eqb x y && str_eqb a' b'
  | _, _ => false
  end.

(** [s[i:j]] for [0 <= i]. *)
Definition slice (s : str) (i j : nat) : str := firstn (j - i) (skipn i s).

(** [s.startswith(p)]. *)
Fixpoint startswith (p s : str) : bool :=
  match p, s with
  | [], _ => true
  | x :: p', y :: s' => char_eqb x y && startswith p' s'
  | _ :: _, [] => false
  end.

(** [s.endswith(p)]. *)
Definition endswith (p s : str) : bool :=
  (length p <=? length s) && str_eqb (skipn (length s - length p) s) p.

(** [p in s]. *)
Fixpoint contains (p s : str) : bool :=
  startswith p s ||
  match s with
  | [] => false
  | _ :: s' => contains p s'
  end.

(** [s.replace(old, new)] for a non-empty [old]: occurrences are taken
    leftmost first and do not overlap; [skip] counts the characters of the
    occurrence being replaced that are still to be dropped. *)
Fixpoint replace_from (old new : str) (skip : nat) (s : str) : str :=
  match s with
  | [] => []
  | c :: r =>
      match skip with
      | S k => replace_from old new k r
      | O => if startswith old s
             then new ++ replace_from old new (length old - 1) r
             else c :: replace_from old new 0 r
      end
  end.

(** With an empty [old], Python inserts [new] around every character. *)
Definition replace (old new : str) (s : str) : str :=
  match old with
  | [] => new ++ flat_map (fun c => c :: new) s
  | _ :: _ => replace_from old new 0 s
  end.

(** [c.isspace()]: U+0009-000D, U+001C-0020, U+0085, U+00A0, U+1680,
    U+2000-200A, U+2028, U+2029, U+202F, U+205F and U+3000.  [str.strip]
    and the class [\s] of [re] on [str] use the same set. *)
Definition isspace (c : char) : bool :=
  (((9 <=? c) && (c <=? 13)) || ((28 <=? c) && (c <=? 32))
   || (c =? 133) || (c =? 160) || (c =? 5760)
   || ((8192 <=? c) && (c <=? 8202))
   || (c =? 8232) || (c =? 8233) || (c =? 8239) || (c =? 8287)
   || (c =? 12288))%N.

Fixpoint dropwhile (f : char -> bool) (s : str) : str :=
  match s with
  | [] => []
  | c :: r => if f c then dropwhile f r else s
  end.

Fixpoint takewhile (f : char -> bool) (s : str) : str :=
  match s with
  | [] => []
  | c :: r => if f c then c :: takewhile f r else []
  end.

(** [s.strip()]. *)
Definition strip (s : str) : str :=
  rev (dropwhile isspace (rev (dropwhile isspace s))).

Definition DOT : char := chr ".".

(** [str.lower] on the ASCII range. *)
Definition ascii_lower_char (c : char) : char :=
  if ((65 <=? c) && (c <=? 90))%N then (c + 32)%N else c.

Definition is_ascii (c : char) : bool := (c <? 128)%N.

(** [str.lower]: the Unicode case tables are not in the source.  What is
    used of it: on ASCII text it lowers the letters A to Z and nothing
    else; the characters it produces are left alone by it; a text whose
    characters are each left alone is left alone; and it turns into dots
    the dots only. *)
Record lowering : Type := mkLowering {
  lower : str -> str;
  lower_ascii :
    forall s, forallb is_ascii s = true -> lower s = map ascii_lower_char s;
  lower_out :
    forall s c, In c (lower s) -> lower [c] = [c];
  lower_in :
    forall s, (forall c, In c s -> lower [c] = [c]) -> lower s = s;
  lower_dots :
    forall s, (forall c, In c (lower s) -> c = DOT) <->
              (forall c, In c s -> c = DOT)
}.

End Py.

Import Py.

(** ** The fragment of [re] the program uses

    Both patterns of the program are sequences of literals, an alternation
    of literals and greedy stars over a character class, so the matcher is
    the backtracking one of [re] restricted to those items: a star first
    takes as many characters as it can and gives them back one at a time
    when the rest of the pattern fails. *)

Module Re.

Inductive item : Type :=
| Lit (l : str)
| Alt (alts : list str)
| Star (cls : char -> bool).

Fixpoint first_some {A} (l : list (option A)) : option A :=
  match l with
  | [] => None
  | Some a :: _ => Some a
  | None :: r => first_some r
  end.

(** [rmatch items k s]: match [items] at the head of [s], then hand what is
    left of [s] to the continuation [k]. *)
Fixpoint rmatch {A} (items : list item) (k : str -> option A) (s : str)
  {struct items} : option A :=
  match items with
  | [] => k s
  | Lit l :: rest =>
      if startswith l s then rmatch rest k (skipn (length l) s) else None
  | Alt alts :: rest =>
      first_some
        (map (fun l => if startswith l s
                       then rmatch rest k (skipn (length l) s) else None)
             alts)
  | Star cls :: rest =>
      (fix star (s : str) : option A :=
         match s with
         | [] => rmatch rest k []
         | c :: s' =>
             if cls c
             then match star s' with
                  | Some a => Some a
                  | None => rmatch rest k s
                  end
             else rmatch rest k s
         end) s
  end.

(** A capturing [ (cls+) ] that ends the pattern: the longest run, which
    must not be empty. *)
Definition capture_plus (cls : char -> bool) (s : str) : option str :=
  match takewhile cls s with
  | [] => None
  | v => Some v
  end.

(** [re.search]: the leftmost position at which the pattern matches. *)
Fixpoint search {A} (m : str -> option A) (pos : nat) (s : str)
  : option (nat * A) :=
  match m s with
  | Some a => Some (pos, a)
  | None =>
      match s with
      | [] => None
      | _ :: s' => search m (S pos) s'
      end
  end.

End Re.

(** ** [get_template_field]: the balanced scan (lines 40-82) *)

Record scan_state : Type := mkScan {
  current_index : nat;
  brace_balance : Z;
  template_text : str;
  in_comment : bool
}.

(** [re.search(r"{{\s*<name>", wikitext, re.DOTALL)], returning
    [match.start()].  The source has the literal name of its one template;
    here it is the argument [template_name]. *)
Definition template_start_pattern (template_name : str) : list Re.item :=
  [Re.Lit (lit "{{"); Re.Star isspace; Re.Lit template_name].

Definition template_start_match (wikitext template_name : str) : option nat :=
  option_map fst
    (Re.search (Re.rmatch (template_start_pattern template_name)
                          (fun _ => Some tt)) 0 wikitext).

(** One turn of the loop body (lines 56-79).  The result is [None] when
    [wikitext[current_index]] raises [IndexError]; the boolean tells
    whether the turn ended in [break]. *)
Definition loop_body (wikitext : str) (st : scan_state)
  : option (scan_state * bool) :=
  let i := current_index st in
  if str_eqb (slice wikitext i (i + 4)) (lit "") then
    Some (mkScan (i + 3) (brace_balance st) (template_text st) false, false)
  else
    let copy_char :=
      match nth_error wikitext i with
      | Some c =>
          Some (mkScan (i + 1) (brace_balance st)
                       (template_text st ++ [c]) (in_comment st), false)
      | None => None
      end in
    if negb (in_comment st) then
      if str_eqb (slice wikitext i (i + 2)) (lit "{{") then
        Some (mkScan (i + 2) (brace_balance st + 1)
                     (template_text st ++ lit "{{") (in_comment st), false)
      else if str_eqb (slice wikitext i (i + 2)) (lit "}}") then
        let st' := mkScan (i + 2) (brace_balance st - 1)
                          (template_text st ++ lit "}}") (in_comment st) in
        Some (st', (brace_balance st' =? 0)%Z)
      else copy_char
    else copy_char.

Inductive loop_exit : Type :=
| Broke (st : scan_state)        (* left by [break] *)
| Exhausted (st : scan_state)    (* the loop condition failed: [else] runs *)
| IndexFault                     (* [IndexError] *)
| OutOfFuel.

Fixpoint while_loop (fuel : nat) (wikitext : str) (st : scan_state)
  : loop_exit :=
  match fuel with
  | O => OutOfFuel
  | S fuel' =>
      if current_index st <? length wikitext then
        match loop_body wikitext st with
        | None => IndexFault
        | Some (st', true) => Broke st'
        | Some (st', false) => while_loop fuel' wikitext st'
        end
      else Exhausted st
  end.

(** The states the loop goes through: the state at each test of the loop
    condition, and the state a [break] leaves. *)
Fixpoint scan_trace (fuel : nat) (wikitext : str) (st : scan_state)
  : list scan_state :=
  st ::
  match fuel with
  | O => []
  | S fuel' =>
      if current_index st <? length wikitext then
        match loop_body wikitext st with
        | None => []
        | Some (st', true) => [st']
        | Some (st', false) => scan_trace fuel' wikitext st'
        end
      else []
  end.

Definition scan_init (start_index : nat) : scan_state :=
  mkScan start_index 0 (lit "") false.

Definition scan_fuel (wikitext : str) : nat := S (length wikitext).

Inductive extract_result : Type :=
| TemplateSpan (template_text : str) (start_index : nat)
| NotFoundError
| UnbalancedError
| ScanFault.

Definition extractTemplate (wikitext template_name : str) : extract_result :=
  match template_start_match wikitext template_name with
  | None => NotFoundError
  | Some start_index =>
      match while_loop (scan_fuel wikitext) wikitext (scan_init start_index) with
      | Broke st => TemplateSpan (template_text st) start_index
      | Exhausted _ => UnbalancedError
      | IndexFault | OutOfFuel => ScanFault
      end
  end.

(** ** [get_template_field]: the field pattern (lines 94-103) *)

Definition LF : char := 10%N.
Definition CR : char := 13%N.

(** The class [[^|\n\r}]]. *)
Definition value_char (c : char) : bool :=
  negb (char_eqb c (chr "|") || char_eqb c LF || char_eqb c CR
        || char_eqb c (chr "}")).

(** [(?:\||\{\{)\s*<field_name>\s*=\s*], before the capturing group. *)
Definition field_pattern (field_name : str) : list Re.item :=
  [Re.Alt [lit "|"; lit "{{"]; Re.Star isspace; Re.Lit field_name;
   Re.Star isspace; Re.Lit (lit "="); Re.Star isspace].

(** [field_match.group(1)] of the first match, when there is one. *)
Definition field_match (template_text field_name : str) : option str :=
  option_map snd
    (Re.search (Re.rmatch (field_pattern field_name)
                          (Re.capture_plus value_char)) 0 template_text).

Definition extractField (template_text field_name : str) : option str :=
  option_map strip (field_match template_text field_name).

(** ** [get_template_field]: the exchange with the API (lines 10-38) *)

(** What a call returns, or that it raised. *)
Inductive outcome (A : Type) : Type :=
| Raises
| Returns (a : A).

Arguments Raises {A}.
Arguments Returns {A} a.

(** A value decoded by [response.json()].  Of a number the program only
    ever tests whether it is zero. *)
Inductive json : Type :=
| JNull
| JBool (b : bool)
| JNumber (is_zero : bool)
| JString (s : str)
| JArray (items : list json)
| JObject (fields : list (str * json)).

(** [bool(v)]. *)
Definition truthy (v : json) : bool :=
  match v with
  | JNull => false
  | JBool b => b
  | JNumber is_zero => negb is_zero
  | JString [] => false
  | JString (_ :: _) => true
  | JArray [] => false
  | JArray (_ :: _) => true
  | JObject [] => false
  | JObject (_ :: _) => true
  end.

(** The value under a key of a dict (the keys of a decoded object are
    distinct). *)
Fixpoint dict_lookup (key : str) (fields : list (str * json)) : option json :=
  match fields with
  | [] => None
  | (k, v) :: r => if str_eqb k key then Some v else dict_lookup key r
  end.

(** [key in data], for a [str] key: a key of a dict, an element of a
    list, a substring of a string; [TypeError] on anything else. *)
Definition py_in (key : str) (data : json) : outcome bool :=
  match data with
  | JObject fields =>
      Returns (match dict_lookup key fields with
               | Some _ => true
               | None => false
               end)
  | JArray items =>
      Returns (existsb (fun v => match v with
                                 | JString s => str_eqb s key
                                 | _ => false
                                 end) items)
  | JString s => Returns (contains key s)
  | JNull | JBool _ | JNumber _ => Raises
  end.

(** [v.get(key, default)]: [AttributeError] when [v] is not a dict. *)
Definition py_get (v : json) (key : str) (default : json) : outcome json :=
  match v with
  | JObject fields =>
      Returns (match dict_lookup key fields with
               | Some x => x
               | None => default
               end)
  | _ => Raises
  end.

(** What the [parse] request comes to: [session.get] raised (line 20 is
    outside the [try]), or [response.json()] raised something line 25 does
    not catch; the body is not JSON ([json.JSONDecodeError], caught); or
    the decoded body. *)
Inductive api_response : Type :=
| RequestRaises
| JsonDecodeError
| JsonData (data : json).

(** A body that carries the wikitext of a page, and one that carries an
    error of the API. *)
Definition ApiData (wikitext : str) : api_response :=
  JsonData
    (JObject [(lit "parse",
               JObject [(lit "wikitext",
                         JObject [(lit "*", JString wikitext)])])]).

Definition ApiError : api_response :=
  JsonData
    (JObject [(lit "error",
               JObject [(lit "info", JString (lit "missingtitle"))])]).

(** Lines 20-35: the function raises, returns [None] (lines 29 and 33),
    or goes on with the value it found for the wikitext. *)
Inductive lookup : Type :=
| LookupRaises
| LookupNone
| Wikitext (wikitext : json).

Definition page_lookup (api : str -> api_response) (page_title : str)
  : lookup :=
  match api page_title with
  | RequestRaises => LookupRaises
  | JsonDecodeError => LookupNone
  | JsonData data =>
      match py_in (lit "error") data with
      | Raises => LookupRaises
      | Returns true =>
          (* the message of line 32 calls [data['error'].get] *)
          match data with
          | JObject fields =>
              match dict_lookup (lit "error") fields with
              | Some (JObject _) => LookupNone
              | _ => LookupRaises
              end
          | _ => LookupRaises
          end
      | Returns false =>
          match py_get data (lit "parse") (JObject []) with
          | Raises => LookupRaises
          | Returns parse =>
              match py_get parse (lit "wikitext") (JObject []) with
              | Raises => LookupRaises
              | Returns wt =>
                  match py_get wt (lit "*") (JString (lit "")) with
                  | Raises => LookupRaises
                  | Returns wikitext => Wikitext wikitext
                  end
              end
          end
      end
  end.

Definition TEMPLATE_NAME : str := lit "禁闭者图鉴".

(** Lines 36-103.  [re.search] raises [TypeError] on a value that is not
    a string. *)
Definition template_field_of (wikitext : json) (field_name : str)
  : outcome (option str) :=
  if negb (truthy wikitext) then Returns None
  else
    match wikitext with
    | JString w =>
        Returns
          match extractTemplate w TEMPLATE_NAME with
          | TemplateSpan template_text _ =>
              extractField template_text field_name
          | _ => None
          end
    | _ => Raises
    end.

Definition get_template_field (api : str -> api_response)
  (page_title field_name : str) : outcome (option str) :=
  match page_lookup api page_title with
  | LookupRaises => Raises
  | LookupNone => Returns None
  | Wikitext wikitext => template_field_of wikitext field_name
  end.

(** ** [search_all_images] and the filter of line 139 *)

Record image : Type := mkImage { name : str; url : str }.

(** The catalogue arrives in pages; each page is filtered in turn and the
    survivors are appended in order. *)
Definition search_all_images (pages : list (list image)) (keyword : str)
  : list image :=
  flat_map
    (filter (fun img => contains keyword (name img)
                        && endswith (lit ".png") (name img)))
    pages.

(** The two literals of the comprehension of line 139. *)
Definition EXCLUSIONS : list str := [lit "升阶装束"; lit ""].

Definition filtered_images (images : list image) : list image :=
  filter (fun img => negb (contains (lit "升阶装束") (name img))
                     && negb (contains (lit "") (name img)))
         images.

(** The catalogue filter of the program: line 123, then line 139. *)
Definition filterAssets (assets : list image) (keyword : str) : list image :=
  filtered_images (search_all_images [assets] keyword).

(** The same filter with the exclusion substrings as an argument. *)
Definition filter_excluding (exclusions : list str) (assets : list image)
  (keyword : str) : list image :=
  filter (fun img => contains keyword (name img)
                     && endswith (lit ".png") (name img)
                     && forallb (fun e => negb (contains e (name img)))
                                exclusions)
         assets.

(** ** File-name sanitization (lines 161-174) *)

(** The class of line 170: whitespace, backslash, slash, colon, double
    quote, star, question mark, angle brackets and bar. *)
Definition reserved_char (c : char) : bool :=
  isspace c
  || existsb (char_eqb c)
       [chr "\"; chr "/"; chr ":"; 34%N; chr "*"; chr "?"; chr "<"; chr ">";
        chr "|"].

(** [re.sub(cls+, '_', s)]: every maximal run of [cls] becomes one
    underscore; [in_run] tells that the run being read already gave its
    underscore. *)
Fixpoint sub_runs (cls : char -> bool) (in_run : bool) (s : str) : str :=
  match s with
  | [] => []
  | c :: r =>
      if cls c
      then if in_run then sub_runs cls true r
           else chr "_" :: sub_runs cls true r
      else c :: sub_runs cls false r
  end.

Definition sanitize (L : lowering) (english_name : str) : str :=
  let sanitized_name := lower L english_name in
  let sanitized_name := replace (lit ".") (lit "") sanitized_name in
  sub_runs reserved_char false sanitized_name.

(** ** The naming decision of [download_images_with_english_names] *)

Definition NAMESPACE : str := lit "禁闭者:".
Definition FIELD_NAME : str := lit "英文名".

(** Lines 147-150. *)
Definition base_character_name (original_name keyword : str) : str :=
  replace (keyword ++ lit ".png") (lit "") original_name.

Definition character_page_title (original_name keyword : str) : str :=
  NAMESPACE ++ base_character_name original_name keyword.

(** Which branch of [if not english_name] is taken: [None] and the empty
    string are both false in Python. *)
Inductive naming : Type :=
| UseOriginal
| UseEnglish (english_name : str).

Definition choose_naming (english_name : option str) : naming :=
  match english_name with
  | None => UseOriginal
  | Some [] => UseOriginal
  | Some (c :: r) => UseEnglish (c :: r)
  end.

(** The call of line 155 is not inside a [try]: when it raises, so does
    the loop. *)
Definition naming_of (api : str -> api_response) (img : image)
  (keyword : str) : outcome naming :=
  match get_template_field api (character_page_title (name img) keyword)
                           FIELD_NAME with
  | Raises => Raises
  | Returns english_name => Returns (choose_naming english_name)
  end.

(** The [filename] under which the image is written. *)
Definition resolveName (L : lowering) (api : str -> api_response)
  (img : image) (keyword : str) : outcome str :=
  match naming_of api img keyword with
  | Raises => Raises
  | Returns UseOriginal => Returns (name img)
  | Returns (UseEnglish english_name) =>
      Returns (sanitize L english_name ++ lit ".png")
  end.

(** The file names the batch chooses, in order, one per image that passes
    the filter of line 139, up to the end of the list or to the first
    lookup that raises.  The transfer of lines 178-185 comes after the
    name is chosen and is not modelled: a network error in it is caught
    (line 184) and the loop goes on; the file system ([os.makedirs] of
    line 134, [open] and [write] of lines 181-182) is taken not to
    fail. *)
Inductive batch : Type :=
| Completed (written : list (image * str))
| Aborted (written : list (image * str)).

Fixpoint download_loop (L : lowering) (api : str -> api_response)
  (keyword : str) (images : list image) : batch :=
  match images with
  | [] => Completed []
  | img :: rest =>
      match resolveName L api img keyword with
      | Raises => Aborted []
      | Returns filename =>
          match download_loop L api keyword rest with
          | Completed written => Completed ((img, filename) :: written)
          | Aborted written => Aborted ((img, filename) :: written)
          end
      end
  end.

Definition download_images_with_english_names (L : lowering)
  (api : str -> api_response) (images : list image) (keyword : str)
  : batch :=
  download_loop L api keyword (filtered_images images).

(** ** Auxiliary notions for the statements *)

(** What a turn of the loop does when [in_comment] is off, told from the
    text that starts at the current index. *)
Definition live_turn (rest : str) (st : scan_state)
  : option (scan_state * bool) :=
  let i := current_index st in
  if startswith (lit "{{") rest then
    Some (mkScan (i + 2) (brace_balance st + 1)
                 (template_text st ++ lit "{{") false, false)
  else if startswith (lit "}}") rest then
    Some (mkScan (i + 2) (brace_balance st - 1)
                 (template_text st ++ lit "}}") false,
          (brace_balance st - 1 =? 0)%Z)
  else
    match rest with
    | c :: _ =>
        Some (mkScan (i + 1) (brace_balance st)
                     (template_text st ++ [c]) false, false)
    | [] => None
    end.

Definition positive_balance (st : scan_state) : Prop :=
  (1 <= brace_balance st)%Z.

(** The state in which the scan stops. *)
Definition final_state (w : str) (start : nat) : scan_state :=
  last (scan_trace (scan_fuel w) w (scan_init start)) (scan_init start).

(** ** Brace-balanced spans: the reading of the scanner

    The scanner reads its text as a sequence of tokens: two opening braces,
    two closing braces, or any other single character, taken greedily from
    the left; a comment is nothing special in this reading.  A span is
    well formed for the scanner when it spells an opening token, a
    balanced body and a closing token.  The reading of the specification,
    in which comments are opaque, is [spec_well_formed] below. *)

Inductive token : Type :=
| TOpen
| TClose
| TChar (c : char).

Fixpoint tokens (s : str) : list token :=
  match s with
  | [] => []
  | c1 :: r =>
      match r with
      | [] => [TChar c1]
      | _ :: r' =>
          if startswith (lit "{{") s then TOpen :: tokens r'
          else if startswith (lit "}}") s then TClose :: tokens r'
          else TChar c1 :: tokens r
      end
  end.

Definition spell (t : token) : str :=
  match t with
  | TOpen => lit "{{"
  | TClose => lit "}}"
  | TChar c => [c]
  end.

Definition spell_all (l : list token) : str := flat_map spell l.

Inductive balanced : list token -> Prop :=
| balanced_nil : balanced []
| balanced_char (c : char) (l : list token) :
    balanced l -> balanced (TChar c :: l)
| balanced_nest (l1 l2 : list token) :
    balanced l1 -> balanced l2 -> balanced (TOpen :: l1 ++ TClose :: l2).

Definition well_formed_instance (inst : str) : Prop :=
  exists body, tokens inst = TOpen :: body ++ [TClose] /\ balanced body.

(** The opening marker of the template matches at position [p]. *)
Definition marker_at (w template_name : str) (p : nat) : Prop :=
  p <= length w /\
  Re.rmatch (template_start_pattern template_name) (fun _ => Some tt)
            (skipn p w) = Some tt.

(** [inst] is a well-formed instance of the template that starts at
    position [p] of [w]. *)
Definition instance_at (w template_name : str) (p : nat) (inst : str)
  : Prop :=
  marker_at w template_name p /\
  well_formed_instance inst /\
  exists post, skipn p w = inst ++ post.

(** The effect on the scan state of going over one token, and over a
    balanced run of tokens. *)
Definition brace_delta (t : token) : Z :=
  match t with
  | TOpen => 1
  | TClose => -1
  | TChar _ => 0
  end.

Definition advance (t : token) (st : scan_state) : scan_state :=
  mkScan (current_index st + length (spell t))
         (brace_balance st + brace_delta t)
         (template_text st ++ spell t) false.

Definition advance_run (l : list token) (st : scan_state) : scan_state :=
  mkScan (current_index st + length (spell_all l))
         (brace_balance st)
         (template_text st ++ spell_all l) false.

(** [pending k l]: the tokens [l] close [k] pairs of braces that were open
    before them, every one of the [k] closing tokens coming after a
    balanced run, and end on the last of them. *)
Fixpoint pending (k : nat) (l : list token) : Prop :=
  match k with
  | O => l = []
  | S k' =>
      exists l1 l2,
        l = l1 ++ TClose :: l2 /\ balanced l1 /\ pending k' l2
  end.

(** The depth of braces after a run of tokens: the opening tokens less the
    closing ones. *)
Fixpoint depth (l : list token) : Z :=
  match l with
  | [] => 0
  | t :: r => brace_delta t + depth r
  end.

(** No token closes the pair the text opens with: after every token the
    depth is above 0. *)
Definition never_closed (l : list token) : Prop :=
  forall k, 0 < k <= length l -> (0 < depth (firstn k l))%Z.

(** ** The reading of the specification, with comments

    The two-state scanner of the specification: outside a comment the
    text is read as above, except that [<!--] opens a comment; inside a
    comment every character is a plain one, up to and including the [-->]
    that closes it. *)

Inductive lex_mode : Type :=
| Normal
| InComment.

Fixpoint ctokens (m : lex_mode) (s : str) : list token :=
  match s with
  | [] => []
  | c1 :: r =>
      match m with
      | InComment =>
          match r with
          | c2 :: c3 :: r3 =>
              if startswith (lit "-->") s
              then TChar c1 :: TChar c2 :: TChar c3 :: ctokens Normal r3
              else TChar c1 :: ctokens InComment r
          | _ => TChar c1 :: ctokens InComment r
          end
      | Normal =>
          let braces :=
            match r with
            | [] => [TChar c1]
            | _ :: r' =>
                if startswith (lit "{{") s then TOpen :: ctokens Normal r'
                else if startswith (lit "}}") s
                     then TClose :: ctokens Normal r'
                     else TChar c1 :: ctokens Normal r
            end in
          match r with
          | c2 :: c3 :: c4 :: r4 =>
              if startswith (lit "<!--") s
              then TChar c1 :: TChar c2 :: TChar c3 :: TChar c4
                   :: ctokens InComment r4
              else braces
          | _ => braces
          end
      end
  end.

(** From the words of the specification: an instance is well formed when,
    comments being opaque, it reads as an opening token, a balanced body
    and a closing token. *)
Definition spec_well_formed (inst : str) : Prop :=
  exists body,
    ctokens Normal inst = TOpen :: body ++ [TClose] /\ balanced body.

Definition spec_instance_at (w template_name : str) (p : nat) (inst : str)
  : Prop :=
  marker_at w template_name p /\
  spec_well_formed inst /\
  exists post, skipn p w = inst ++ post.

(** No pair of braces lies inside a comment of [inst]: the text reads the
    same whether or not comments are opaque. *)
Definition comments_hold_no_braces (inst : str) : Prop :=
  ctokens Normal inst = tokens inst.

(** ** What the patterns mean

    [matches items pre]: the text [pre] is, piece by piece, what the items
    of the pattern stand for. *)

Fixpoint matches (items : list Re.item) (pre : str) : Prop :=
  match items with
  | [] => pre = []
  | Re.Lit l :: rest => exists s, pre = l ++ s /\ matches rest s
  | Re.Alt alts :: rest =>
      exists l s, In l alts /\ pre = l ++ s /\ matches rest s
  | Re.Star cls :: rest =>
      exists ws s, forallb cls ws = true /\ pre = ws ++ s /\ matches rest s
  end.

(** A way to read an assignment of the field [f] at position [p] of the
    template text [t]: a delimiter, whitespace (possibly none), the field
    name, whitespace, the equals sign, whitespace, and a non-empty raw
    value that runs up to the first bar, newline, carriage return or
    closing brace, or to the end. *)
Definition assignment_split (t f : str) (p : nat)
  (delim ws1 ws2 ws3 raw rest : str) : Prop :=
  p <= length t /\
  skipn p t = delim ++ ws1 ++ f ++ ws2 ++ lit "=" ++ ws3 ++ raw ++ rest /\
  (delim = lit "|" \/ delim = lit "{{") /\
  forallb isspace ws1 = true /\
  forallb isspace ws2 = true /\
  forallb isspace ws3 = true /\
  raw <> [] /\
  forallb value_char raw = true /\
  match rest with
  | [] => True
  | c :: _ => value_char c = false
  end.

Definition assignment_at (t f : str) (p : nat) (raw : str) : Prop :=
  exists delim ws1 ws2 ws3 rest, assignment_split t f p delim ws1 ws2 ws3 raw rest.

(** The order in which the matcher prefers the readings that start at one
    position: the more whitespace before the name, then the more before
    the equals sign, then the more after it. *)
Definition less_greedy (a1 a2 a3 b1 b2 b3 : nat) : Prop :=
  a1 < b1 \/ (a1 = b1 /\ (a2 < b2 \/ (a2 = b2 /\ a3 <= b3))).


(** ** Notions of the specification the statements compare the code with *)

(** From the words of the specification, section 4.5: stripping a literal
    suffix from the end of a name, the rest of the name untouched. *)
Definition remove_suffix (suffix s : str) : str :=
  if endswith suffix s then firstn (length s - length suffix) s else s.

(** ** Notions for the further properties of the code *)

(** A character the sanitizer has nothing to do on: not in the class of
    line 170, not a dot, and left alone by [lower]. *)
Definition clean_char (L : lowering) (c : char) : bool :=
  negb (reserved_char c) && negb (char_eqb DOT c)
  && str_eqb (lower L [c]) [c].

(** The characters [strip] leaves at both ends of a text are not
    whitespace. *)
Definition trimmed (s : str) : Prop :=
  match s with
  | [] => True
  | c :: _ => isspace c = false
  end /\
  match rev s with
  | [] => True
  | c :: _ => isspace c = false
  end.

(** ** A lowering for ASCII names

    The letters A to Z are lowered and every other code point is left as
    it is: [str.lower] on the texts that hold no capital outside ASCII. *)

Definition ascii_lower (s : str) : str := map ascii_lower_char s.

Definition ascii_lowering : lowering.
Proof.
  assert (Hidem : forall c, ascii_lower_char (ascii_lower_char c)
                            = ascii_lower_char c).
  { intros c. unfold ascii_lower_char.
    destruct ((65 <=? c) && (c <=? 90))%N eqn:E; [|now rewrite E].
    apply andb_true_iff in E as [E1 E2].
    apply N.leb_le in E1, E2.
    destruct ((65 <=? c + 32) && (c + 32 <=? 90))%N eqn:E'; [|reflexivity].
    apply andb_true_iff in E' as [_ E4]. apply N.leb_le in E4. lia. }
  assert (Hdot : forall c, ascii_lower_char c = DOT <-> c = DOT).
  { intros c. unfold ascii_lower_char, DOT. change (chr ".") with 46%N.
    destruct ((65 <=? c) && (c <=? 90))%N eqn:E; [|tauto].
    apply andb_true_iff in E as [E1 E2].
    apply N.leb_le in E1, E2. split; intros H; lia. }
  refine (mkLowering ascii_lower _ _ _ _).
  - reflexivity.
  - intros s c Hc. unfold ascii_lower in *.
    apply in_map_iff in Hc as (c0 & <- & _). simpl. now rewrite Hidem.
  - intros s H. unfold ascii_lower in *.
    induction s as [|c s IH]; [reflexivity|]. simpl. f_equal.
    + specialize (H c (or_introl eq_refl)). simpl in H. now injection H.
    + apply IH. intros c' Hc'. apply H. now right.
  - intros s. unfold ascii_lower. split; intros H c Hc.
    + apply Hdot, H, in_map, Hc.
    + apply in_map_iff in Hc as (c0 & <- & Hc0). apply Hdot. auto.
Defined.

(** * Properties *)

(** ** Checks of the embedding on the examples of the specification *)

Example extract_nested :
  extractTemplate (lit "xx {{ T|a={{b}}|c=d}} yy") (lit "T")
  = TemplateSpan (lit "{{ T|a={{b}}|c=d}}") 3.
Proof. reflexivity. Qed.

Example extract_after_ideographic_space :
  extractTemplate (lit "{{　禁闭者图鉴|英文名=X}}") (lit "禁闭者图鉴")
  = TemplateSpan (lit "{{　禁闭者图鉴|英文名=X}}") 0.
Proof. reflexivity. Qed.

Example field_alpha_beta :
  extractField (lit "{{T|name = Alpha Beta |x=1}}") (lit "name")
  = Some (lit "Alpha Beta").
Proof. reflexivity. Qed.

Example field_blank_value :
  extractField (lit "{{T|name= |x=1}}") (lit "name") = Some (lit "").
Proof. reflexivity. Qed.

Example field_ideographic_blank_value :
  extractField (lit "{{T|name=　|x=1}}") (lit "name") = Some (lit "").
Proof. reflexivity. Qed.

Example field_no_break_spaces :
  extractField (lit "{{T|英文名 = Zoya}}") (lit "英文名") = Some (lit "Zoya").
Proof. reflexivity. Qed.

Example field_value_after_newline :
  extractField (lit "{{T|name=
Foo|x=1}}") (lit "name") = Some (lit "Foo").
Proof. reflexivity. Qed.

Example sanitize_alpha :
  sanitize ascii_lowering (lit "Alpha Beta.Gamma") = lit "alpha_betagamma".
Proof. reflexivity. Qed.

Example sanitize_leading :
  sanitize ascii_lowering (lit " .x") = lit "_x".
Proof. reflexivity. Qed.

Example sanitize_no_break_space :
  sanitize ascii_lowering (lit "John Doe") = lit "john_doe".
Proof. reflexivity. Qed.

Example end_to_end_john :
  resolveName ascii_lowering
    (fun _ => ApiData (lit "{{禁闭者图鉴|英文名=John Doe}}"))
    (mkImage (lit "A_证件照.png") (lit "u")) (lit "证件照")
  = Returns (lit "john_doe.png").
Proof. reflexivity. Qed.

Example end_to_end_lookup_failure :
  resolveName ascii_lowering (fun _ => ApiError)
    (mkImage (lit "A_证件照.png") (lit "u")) (lit "证件照")
  = Returns (lit "A_证件照.png").
Proof. reflexivity. Qed.

Example end_to_end_request_raises :
  resolveName ascii_lowering (fun _ => RequestRaises)
    (mkImage (lit "A_证件照.png") (lit "u")) (lit "证件照")
  = Raises.
Proof. reflexivity. Qed.

Example title_of_portrait :
  character_page_title (lit "A_证件照.png") (lit "_证件照")
  = lit "禁闭者:A".
Proof. reflexivity. Qed.

(** ** Strings *)

(** Literals and ASCII characters are replaced by their code points. *)
Ltac lits :=
  repeat match goal with
    | |- context [lit ?s] =>
        let v := eval vm_compute in (lit s) in change (lit s) with v
    | H : context [lit ?s] |- _ =>
        let v := eval vm_compute in (lit s) in change (lit s) with v in H
    | |- context [chr ?a] =>
        let v := eval vm_compute in (chr a) in change (chr a) with v
    | H : context [chr ?a] |- _ =>
        let v := eval vm_compute in (chr a) in change (chr a) with v in H
    end.

Lemma char_eqb_eq (a b : char) : char_eqb a b = true <-> a = b.
Proof. apply N.eqb_eq. Qed.

Lemma char_eqb_neq (a b : char) : char_eqb a b = false <-> a <> b.
Proof. apply N.eqb_neq. Qed.

Lemma char_eqb_refl (a : char) : char_eqb a a = true.
Proof. apply N.eqb_refl. Qed.

Lemma char_eqb_sym (a b : char) : char_eqb a b = char_eqb b a.
Proof. apply N.eqb_sym. Qed.

Lemma str_eqb_eq (a b : str) : str_eqb a b = true <-> a = b.
Proof.
  revert b; induction a as [|x a IH]; intros [|y b]; simpl; split;
    try congruence; try reflexivity.
  - intros H. apply andb_true_iff in H as [Hxy Hab].
    apply char_eqb_eq in Hxy. apply IH in Hab. congruence.
  - intros H. injection H as -> ->.
    rewrite char_eqb_refl. simpl. now apply IH.
Qed.

Lemma startswith_app (p s : str) : startswith p (p ++ s) = true.
Proof.
  induction p as [|x p IH]; simpl; [reflexivity|].
  now rewrite char_eqb_refl.
Qed.

Lemma startswith_refl (p : str) : startswith p p = true.
Proof.
  induction p as [|x p IH]; simpl; [reflexivity|].
  now rewrite char_eqb_refl.
Qed.

Lemma startswith_inv (p s : str) :
  startswith p s = true -> s = p ++ skipn (length p) s.
Proof.
  revert s; induction p as [|x p IH]; intros [|y s]; simpl;
    try congruence; try reflexivity.
  intros H. apply andb_true_iff in H as [Hxy Hps].
  apply char_eqb_eq in Hxy. subst y. f_equal. now apply IH.
Qed.

Lemma startswith_ex (p s : str) :
  startswith p s = true -> exists r, s = p ++ r.
Proof. intros H. eexists. now apply startswith_inv. Qed.

Lemma str_eqb_firstn (p s : str) :
  str_eqb (firstn (length p) s) p = startswith p s.
Proof.
  revert s; induction p as [|x p IH]; intros [|y s]; simpl;
    try reflexivity.
  rewrite IH. now rewrite char_eqb_sym.
Qed.

Lemma slice_from (w : str) (i n : nat) :
  slice w i (i + n) = firstn n (skipn i w).
Proof. unfold slice. f_equal. lia. Qed.

Lemma skipn_cons_inv (w : str) (i : nat) :
  i < length w -> exists c r, skipn i w = c :: r.
Proof.
  revert i; induction w as [|x w IH]; intros i Hi; simpl in Hi; [lia|].
  destruct i as [|i]; simpl; eauto.
  apply IH; lia.
Qed.

Lemma nth_error_hd_skipn (w : str) (i : nat) :
  nth_error w i = hd_error (skipn i w).
Proof.
  revert i; induction w as [|x w IH]; intros [|i]; simpl; auto.
Qed.

Lemma skipn_skipn_add (w : str) (i n : nat) :
  skipn (i + n) w = skipn n (skipn i w).
Proof.
  revert w; induction i as [|i IH]; intros w; simpl; [reflexivity|].
  destruct w as [|x w]; [now rewrite skipn_nil|]. apply IH.
Qed.

Lemma skipn_lt_length (w : str) (i : nat) (c : char) (r : str) :
  skipn i w = c :: r -> i + S (length r) = length w.
Proof.
  intros H.
  assert (Hl : length (skipn i w) = S (length r)) by now rewrite H.
  rewrite length_skipn in Hl.
  assert (i < length w \/ length w <= i) as [Hlt|Hge] by lia; [lia|].
  rewrite skipn_all2 in H by lia. discriminate.
Qed.

(** ** The scan loop *)

(** The test of line 56 compares four characters of the text, taken at an
    index inside it, with the empty string: it never holds. *)
Lemma comment_test_false (w : str) (i : nat) :
  i < length w -> str_eqb (slice w i (i + 4)) (lit "") = false.
Proof.
  intros Hi. rewrite slice_from.
  destruct (skipn_cons_inv w _ Hi) as (c & r & ->). reflexivity.
Qed.

Lemma loop_body_live (w : str) (st : scan_state) :
  in_comment st = false ->
  current_index st < length w ->
  loop_body w st = live_turn (skipn (current_index st) w) st.
Proof.
  intros Hc Hi. unfold loop_body, live_turn.
  rewrite (comment_test_false w _ Hi), Hc. simpl negb. cbv iota.
  rewrite !slice_from, nth_error_hd_skipn.
  rewrite (str_eqb_firstn (lit "{{")), (str_eqb_firstn (lit "}}")).
  cbn [brace_balance].
  destruct (startswith (lit "{{") _); [reflexivity|].
  destruct (startswith (lit "}}") _); [reflexivity|].
  destruct (skipn (current_index st) w); reflexivity.
Qed.

(** A turn never raises, moves the index forward by one or two, keeps it
    inside the text, leaves [in_comment] off and appends to the buffer the
    characters it went over. *)
Lemma live_turn_spec (w : str) (st : scan_state) :
  in_comment st = false ->
  current_index st < length w ->
  exists st' b,
    loop_body w st = Some (st', b) /\
    in_comment st' = false /\
    current_index st < current_index st' <= length w /\
    template_text st' =
      template_text st ++ slice w (current_index st) (current_index st') /\
    (b = true ->
     brace_balance st' = 0%Z /\ brace_balance st' = (brace_balance st - 1)%Z) /\
    (b = false -> (brace_balance st - 1 <= brace_balance st')%Z
                  /\ (brace_balance st' <= brace_balance st + 1)%Z
                  /\ ((1 <= brace_balance st)%Z -> (1 <= brace_balance st')%Z)).
Proof.
  intros Hc Hi. rewrite (loop_body_live w st Hc Hi). unfold live_turn.
  destruct (skipn_cons_inv w _ Hi) as (c & r & Hs).
  pose proof (skipn_lt_length w _ _ _ Hs) as Hlen.
  destruct (startswith (lit "{{") _) eqn:Ho.
  { apply startswith_ex in Ho as (r2 & Ho). lits. rewrite Ho in Hs.
    injection Hs as <- <-. simpl in Hlen.
    eexists _, _; split; [reflexivity|]. simpl.
    rewrite slice_from, Ho.
    repeat split; try lia; try discriminate. }
  destruct (startswith (lit "}}") _) eqn:Hcl.
  { apply startswith_ex in Hcl as (r2 & Hcl). lits. rewrite Hcl in Hs.
    injection Hs as <- <-. simpl in Hlen.
    eexists _, _; split; [reflexivity|]. simpl.
    rewrite slice_from, Hcl.
    repeat split; lia. }
  rewrite Hs.
  eexists _, _; split; [reflexivity|]. simpl.
  rewrite slice_from, Hs. simpl.
  repeat split; try lia; try discriminate.
Qed.

Lemma firstn_add {A : Type} (n m : nat) (l : list A) :
  firstn (n + m) l = firstn n l ++ firstn m (skipn n l).
Proof.
  revert l; induction n as [|n IH]; intros l; simpl; [reflexivity|].
  destruct l as [|x l]; simpl; [now rewrite firstn_nil|].
  now rewrite IH.
Qed.

Lemma slice_app (w : str) (a b c : nat) :
  a <= b <= c -> slice w a b ++ slice w b c = slice w a c.
Proof.
  intros H. unfold slice.
  replace (c - a) with ((b - a) + (c - b)) by lia.
  rewrite firstn_add, <- skipn_skipn_add.
  now replace (a + (b - a)) with b by lia.
Qed.

Lemma slice_empty (w : str) (a : nat) : slice w a a = [].
Proof. unfold slice. now rewrite Nat.sub_diag. Qed.

Lemma slice_length (w : str) (a b : nat) :
  a <= b <= length w -> length (slice w a b) = b - a.
Proof.
  intros H. unfold slice. rewrite length_firstn, length_skipn. lia.
Qed.

(** How the loop ends and what it went through, from a state reached
    after the opening braces: the balance stays at 1 or more until a
    [break], which happens with the balance at 0, or until the index
    reaches the end of the text. *)
Lemma scan_run (w : str) (fuel : nat) : forall st,
  in_comment st = false ->
  positive_balance st ->
  current_index st <= length w ->
  length w - current_index st < fuel ->
  exists mid last,
    scan_trace fuel w st = mid ++ [last] /\
    Forall positive_balance mid /\
    current_index st <= current_index last <= length w /\
    template_text last =
      template_text st ++ slice w (current_index st) (current_index last) /\
    ((while_loop fuel w st = Broke last /\ brace_balance last = 0%Z /\
      mid <> []) \/
     (while_loop fuel w st = Exhausted last /\ positive_balance last /\
      current_index last = length w)).
Proof.
  induction fuel as [|fuel IH]; intros st Hc Hb Hi Hf; [lia|].
  simpl. destruct (current_index st <? length w) eqn:Hlt.
  - apply Nat.ltb_lt in Hlt.
    destruct (live_turn_spec w st Hc Hlt)
      as (st' & b & -> & Hc' & Hi' & Ht' & Hbt & Hbf).
    destruct b.
    + exists [st], st'. destruct (Hbt eq_refl) as [Hz _].
      repeat split; auto; try lia.
      left. repeat split; auto. discriminate.
    + destruct (Hbf eq_refl) as (_ & _ & Hpos).
      destruct (IH st' Hc' (Hpos Hb)) as (mid & last & Htr & Hmid & Hil & Htl & Hend);
        try lia.
      exists (st :: mid), last. rewrite Htr.
      repeat split; auto; try lia.
      * rewrite Htl, Ht', <- app_assoc. f_equal. apply slice_app. lia.
      * destruct Hend as [(-> & Hz & _)|(-> & Hp & Hl)]; [left|right];
          repeat split; auto. discriminate.
  - apply Nat.ltb_ge in Hlt.
    exists [], st. rewrite slice_empty, app_nil_r.
    repeat split; auto; try lia.
    right. repeat split; auto. lia.
Qed.

(** ** The opening marker *)

Lemma search_sound {A : Type} (m : str -> option A) (s : str) :
  forall pos p a,
    Re.search m pos s = Some (p, a) ->
    pos <= p /\ p - pos <= length s /\ m (skipn (p - pos) s) = Some a /\
    forall q, q < p - pos -> m (skipn q s) = None.
Proof.
  induction s as [|c s IH]; intros pos p a; simpl.
  - destruct (m []) eqn:Hm; [|discriminate].
    intros H; injection H as <- <-. rewrite Nat.sub_diag.
    repeat split; auto; try (intros; lia).
  - destruct (m (c :: s)) eqn:Hm.
    + intros H; injection H as <- <-. rewrite Nat.sub_diag.
      repeat split; auto; try (intros; lia).
    + intros H. apply IH in H as (Hle & Hlen & Hmp & Hmin).
      replace (p - pos) with (S (p - S pos)) by lia. simpl.
      repeat split; auto; try lia.
      intros [|q] Hq; simpl; [assumption|]. apply Hmin. lia.
Qed.

Lemma search_complete {A : Type} (m : str -> option A) (s : str) :
  forall pos, Re.search m pos s = None ->
  forall q, q <= length s -> m (skipn q s) = None.
Proof.
  induction s as [|c s IH]; intros pos; simpl.
  - destruct (m []) eqn:Hm; [discriminate|].
    intros _ [|q] Hq; simpl; auto.
  - destruct (m (c :: s)) eqn:Hm; [discriminate|].
    intros H [|q] Hq; simpl; [assumption|].
    apply (IH _ H). simpl in Hq. lia.
Qed.

Lemma template_start_braces (w template_name : str) (start : nat) :
  template_start_match w template_name = Some start ->
  exists r, skipn start w = lit "{{" ++ r.
Proof.
  unfold template_start_match. intros H.
  destruct (Re.search _ 0 w) as [[p a]|] eqn:Hs; [|discriminate].
  injection H as <-.
  apply search_sound in Hs as (_ & _ & Hm & _).
  rewrite Nat.sub_0_r in Hm. unfold template_start_pattern in Hm.
  cbn [Re.rmatch] in Hm.
  destruct (startswith (lit "{{") (skipn p w)) eqn:Hsw; [|discriminate].
  now apply startswith_ex in Hsw.
Qed.

(** The whole scan from the opening marker. *)
Lemma scan_from_marker (w template_name : str) (start : nat) :
  template_start_match w template_name = Some start ->
  exists mid last,
    scan_trace (scan_fuel w) w (scan_init start)
      = scan_init start :: mid ++ [last] /\
    Forall positive_balance mid /\
    start < current_index last <= length w /\
    template_text last = slice w start (current_index last) /\
    ((while_loop (scan_fuel w) w (scan_init start) = Broke last /\
      brace_balance last = 0%Z /\ mid <> []) \/
     (while_loop (scan_fuel w) w (scan_init start) = Exhausted last /\
      positive_balance last /\ current_index last = length w)).
Proof.
  intros Hm. destruct (template_start_braces _ _ _ Hm) as (r & Hr).
  assert (Hr2 : skipn start w = 123%N :: 123%N :: r) by exact Hr.
  pose proof (skipn_lt_length w _ _ _ Hr2) as Hlen. simpl in Hlen.
  assert (Hlt : start < length w) by lia.
  unfold scan_fuel. simpl.
  apply Nat.ltb_lt in Hlt as Hltb.
  change (current_index (scan_init start)) with start. rewrite Hltb.
  rewrite (loop_body_live w (scan_init start) eq_refl Hlt).
  unfold live_turn. change (current_index (scan_init start)) with start.
  rewrite Hr, startswith_app.
  set (st1 := mkScan _ _ _ _).
  assert (H1 : in_comment st1 = false) by reflexivity.
  assert (H2 : positive_balance st1) by (unfold positive_balance; simpl; lia).
  assert (H3 : current_index st1 <= length w) by (simpl; lia).
  assert (H4 : length w - current_index st1 < length w) by (simpl; lia).
  destruct (scan_run w (length w) st1 H1 H2 H3 H4)
    as (mid & last & Htr & Hmid & Hil & Htl & Hend).
  exists mid, last. rewrite Htr. subst st1. simpl in *.
  repeat split; auto; try lia.
  rewrite Htl. rewrite <- (slice_app w start (start + 2)) by lia.
  f_equal. rewrite slice_from, Hr. reflexivity.
Qed.

(** The scan neither raises nor runs out of fuel. *)
Lemma extractTemplate_total (w template_name : str) :
  extractTemplate w template_name <> ScanFault.
Proof.
  unfold extractTemplate.
  destruct (template_start_match w template_name) as [start|] eqn:Hm;
    [|discriminate].
  destruct (scan_from_marker _ _ _ Hm)
    as (mid & last & _ & _ & _ & _ & [(-> & _)|(-> & _)]); discriminate.
Qed.

(** C4. When [extractTemplate] succeeds, the brace balance is 0 in the
    state the scan starts from, at the opening marker; it is 1 or more in
    every state between that one and the last; it is 0 in the last state,
    whose index is the position just after the returned text; and so it is
    never negative. *)
Theorem C4_depth_trace (w template_name text : str) (start : nat) :
  extractTemplate w template_name = TemplateSpan text start ->
  template_start_match w template_name = Some start /\
  exists mid last,
    scan_trace (scan_fuel w) w (scan_init start)
      = scan_init start :: mid ++ [last] /\
    current_index (scan_init start) = start /\
    brace_balance (scan_init start) = 0%Z /\
    Forall (fun st => (0 < brace_balance st)%Z) mid /\
    brace_balance last = 0%Z /\
    current_index last = start + length text /\
    text = slice w start (start + length text) /\
    Forall (fun st => (0 <= brace_balance st)%Z)
           (scan_trace (scan_fuel w) w (scan_init start)).
Proof.
  unfold extractTemplate.
  destruct (template_start_match w template_name) as [start'|] eqn:Hm;
    [|discriminate].
  destruct (scan_from_marker _ _ _ Hm)
    as (mid & last & Htr & Hmid & Hil & Htl & Hend).
  destruct Hend as [(-> & Hz & _)|(-> & _)]; [|discriminate].
  intros H; injection H as <- <-. split; [reflexivity|].
  assert (Hlen : current_index last = start' + length (template_text last)).
  { rewrite Htl, slice_length; lia. }
  exists mid, last. rewrite Htr.
  assert (Hmid' : Forall (fun st => (0 < brace_balance st)%Z) mid).
  { eapply Forall_impl; [|exact Hmid]. unfold positive_balance.
    intros st Hst. lia. }
  repeat split; auto.
  - rewrite <- Hlen. exact Htl.
  - constructor; [simpl; lia|].
    apply Forall_app. split.
    + eapply Forall_impl; [|exact Hmid']. intros st Hst. simpl in Hst. lia.
    + constructor; [lia|constructor].
Qed.

(** The trace of C4 on a template with a nested pair of braces, between
    two characters of other text on each side. *)
Lemma C4_depth_trace_witness :
  extractTemplate (lit "ab{{T|a={{b}}|c=d}}cd") (lit "T")
    = TemplateSpan (lit "{{T|a={{b}}|c=d}}") 2 /\
  exists mid last,
    scan_trace (scan_fuel (lit "ab{{T|a={{b}}|c=d}}cd"))
               (lit "ab{{T|a={{b}}|c=d}}cd") (scan_init 2)
      = scan_init 2 :: mid ++ [last] /\
    brace_balance last = 0%Z /\
    current_index last = 19.
Proof.
  split; [reflexivity|].
  destruct (C4_depth_trace (lit "ab{{T|a={{b}}|c=d}}cd") (lit "T")
              (lit "{{T|a={{b}}|c=d}}") 2 eq_refl)
    as (_ & mid & last & Htr & _ & _ & _ & Hz & Hi & _).
  exists mid, last. auto.
Defined.

(** ** Tokens and balanced instances *)

Lemma tokens_two (c1 c2 : char) (r : str) :
  tokens (c1 :: c2 :: r)
  = if startswith (lit "{{") (c1 :: c2 :: r) then TOpen :: tokens r
    else if startswith (lit "}}") (c1 :: c2 :: r) then TClose :: tokens r
    else TChar c1 :: tokens (c2 :: r).
Proof. reflexivity. Qed.

Lemma tokens_head (s : str) (t : token) (l : list token) :
  tokens s = t :: l ->
  exists r, s = spell t ++ r /\ tokens r = l /\
            match t with
            | TChar _ => startswith (lit "{{") s = false /\
                         startswith (lit "}}") s = false
            | _ => True
            end.
Proof.
  destruct s as [|c1 [|c2 r]]; [discriminate| |].
  - intros H; injection H as <- <-. exists []. simpl.
    rewrite !andb_false_r. auto.
  - rewrite tokens_two.
    destruct (startswith (lit "{{") (c1 :: c2 :: r)) eqn:Ho.
    { intros H; injection H as <- <-.
      apply startswith_ex in Ho as (r2 & Ho). lits.
      injection Ho as -> -> ->.
      exists r2. auto. }
    destruct (startswith (lit "}}") (c1 :: c2 :: r)) eqn:Hc.
    { intros H; injection H as <- <-.
      apply startswith_ex in Hc as (r2 & Hc). lits.
      injection Hc as -> -> ->.
      exists r2. auto. }
    intros H; injection H as <- <-. exists (c2 :: r). auto.
Qed.

Lemma spell_tokens (s : str) : spell_all (tokens s) = s.
Proof.
  assert (H : forall n s, length s <= n -> spell_all (tokens s) = s).
  { clear s. induction n as [|n IH]; intros s Hs.
    - destruct s; [reflexivity|simpl in Hs; lia].
    - destruct (tokens s) as [|t l] eqn:Ht.
      + destruct s as [|c1 [|c2 r]]; [reflexivity|discriminate|].
        rewrite tokens_two in Ht.
        destruct (startswith _ _); [discriminate|].
        destruct (startswith _ _); discriminate.
      + destruct (tokens_head _ _ _ Ht) as (r & -> & <- & _).
        unfold spell_all. cbn [flat_map]. f_equal. apply IH.
        rewrite length_app in Hs. destruct t; simpl in Hs; lia. }
  apply (H (length s)). lia.
Qed.

(** A text that ends on a closing token is read the same way whatever
    follows it. *)
Lemma tokens_app_close (post : str) :
  forall s l, tokens s = l ++ [TClose] ->
              tokens (s ++ post) = tokens s ++ tokens post.
Proof.
  assert (H : forall n s l, length s <= n -> tokens s = l ++ [TClose] ->
                            tokens (s ++ post) = tokens s ++ tokens post).
  { induction n as [|n IH]; intros s l Hs Hl.
    - destruct s; [|simpl in Hs; lia]. now destruct l.
    - destruct s as [|c1 [|c2 r]].
      + now destruct l.
      + destruct l as [|? [|? ?]]; discriminate.
      + cbn [app]. rewrite !tokens_two in *.
        change (startswith (lit "{{") (c1 :: c2 :: r ++ post))
          with (startswith (lit "{{") (c1 :: c2 :: r)).
        change (startswith (lit "}}") (c1 :: c2 :: r ++ post))
          with (startswith (lit "}}") (c1 :: c2 :: r)).
        simpl in Hs.
        destruct (startswith (lit "{{") (c1 :: c2 :: r)).
        { destruct l as [|t l]; [discriminate|]. injection Hl as <- Hl.
          simpl. f_equal. apply (IH r l); [lia|assumption]. }
        destruct (startswith (lit "}}") (c1 :: c2 :: r)).
        { destruct l as [|t l].
          - injection Hl as Hl. destruct r as [|c3 [|c4 r]];
              [reflexivity|discriminate|].
            rewrite tokens_two in Hl.
            destruct (startswith _ _); [discriminate|].
            destruct (startswith _ _); discriminate.
          - injection Hl as <- Hl. simpl. f_equal.
            apply (IH r l); [lia|assumption]. }
        destruct l as [|t l]; [discriminate|]. injection Hl as <- Hl.
        change ((c2 :: r) ++ post) with (c2 :: r ++ post).
        simpl. f_equal. apply (IH (c2 :: r) l); [simpl; lia|assumption]. }
  intros s l. apply (H (length s)). lia.
Qed.

(** One turn of the loop goes over one token. *)
Lemma turn_token (w : str) (st : scan_state) (t : token) (l : list token) :
  in_comment st = false ->
  tokens (skipn (current_index st) w) = t :: l ->
  current_index st < length w /\
  loop_body w st
    = Some (advance t st,
            match t with
            | TClose => (brace_balance st - 1 =? 0)%Z
            | _ => false
            end) /\
  tokens (skipn (current_index (advance t st)) w) = l.
Proof.
  intros Hc Ht. destruct (tokens_head _ _ _ Ht) as (r & Hr & Hl & Hch).
  assert (Hi : current_index st < length w).
  { destruct (spell t) as [|c sp] eqn:Hsp; [destruct t; discriminate|].
    simpl in Hr. pose proof (skipn_lt_length w _ _ _ Hr). lia. }
  split; [assumption|]. split.
  - rewrite (loop_body_live w st Hc Hi). unfold live_turn, advance.
    destruct t; cbn [spell] in Hr.
    + rewrite Hr, startswith_app. cbn [spell brace_delta]. reflexivity.
    + rewrite Hr, startswith_app.
      change (startswith (lit "{{") (lit "}}" ++ r)) with false.
      cbn [spell brace_delta]. reflexivity.
    + destruct Hch as [-> ->]. rewrite Hr. cbn [spell brace_delta app length].
      now rewrite Z.add_0_r.
  - unfold advance. cbn [current_index].
    rewrite skipn_skipn_add, Hr, skipn_app, skipn_all, Nat.sub_diag.
    assumption.
Qed.

Lemma advance_run_nil (st : scan_state) :
  in_comment st = false -> advance_run [] st = st.
Proof.
  destruct st as [i b t c]. simpl. intros ->. unfold advance_run. simpl.
  now rewrite Nat.add_0_r, app_nil_r.
Qed.

Lemma advance_run_cons_char (c : char) (l : list token) (st : scan_state) :
  advance_run l (advance (TChar c) st) = advance_run (TChar c :: l) st.
Proof.
  unfold advance_run, advance, spell_all.
  cbn [current_index brace_balance template_text brace_delta flat_map spell
       length app].
  rewrite Z.add_0_r, <- app_assoc. f_equal. lia.
Qed.

Lemma advance_run_nest (l1 l2 : list token) (st : scan_state) :
  advance_run l2 (advance TClose (advance_run l1 (advance TOpen st)))
  = advance_run (TOpen :: l1 ++ TClose :: l2) st.
Proof.
  unfold advance_run, advance, spell_all. cbn [current_index brace_balance
    template_text brace_delta flat_map spell].
  rewrite flat_map_app. cbn [flat_map spell].
  f_equal.
  - rewrite !length_app. lia.
  - lia.
  - rewrite <- !app_assoc. reflexivity.
Qed.

(** The loop goes over a balanced run of tokens without leaving, and comes
    out of it with the balance it went in with. *)
Lemma run_balanced (w : str) (l : list token) :
  balanced l ->
  forall fuel st rest,
    in_comment st = false ->
    positive_balance st ->
    tokens (skipn (current_index st) w) = l ++ rest ->
    while_loop (length l + fuel) w st = while_loop fuel w (advance_run l st) /\
    tokens (skipn (current_index (advance_run l st)) w) = rest.
Proof.
  induction 1 as [|c l Hl IH|l1 l2 Hl1 IH1 Hl2 IH2];
    intros fuel st rest Hc Hb Ht.
  - rewrite advance_run_nil by assumption. auto.
  - destruct (turn_token w st _ _ Hc Ht) as (Hi & Hbody & Ht').
    cbn [length Nat.add while_loop].
    apply Nat.ltb_lt in Hi. rewrite Hi, Hbody.
    rewrite <- advance_run_cons_char.
    apply IH; auto. unfold positive_balance, advance in *. simpl. lia.
  - cbn [app] in Ht.
    destruct (turn_token w st _ _ Hc Ht) as (Hi & Hbody & Ht1).
    rewrite <- app_assoc in Ht1. cbn [app] in Ht1.
    set (st1 := advance TOpen st) in *.
    assert (Hb1 : positive_balance st1).
    { unfold positive_balance, st1, advance in *. simpl. lia. }
    destruct (IH1 (S (length l2 + fuel)) st1 _ eq_refl Hb1 Ht1) as (Hrun1 & Ht2).
    set (st2 := advance_run l1 st1) in *.
    destruct (turn_token w st2 _ _ eq_refl Ht2) as (Hi2 & Hbody2 & Ht3).
    set (st3 := advance TClose st2) in *.
    assert (Hb3 : positive_balance st3).
    { unfold positive_balance, st3, st2, st1, advance, advance_run in *.
      simpl. lia. }
    destruct (IH2 fuel st3 _ eq_refl Hb3 Ht3) as (Hrun3 & Ht4).
    rewrite <- advance_run_nest. fold st1 st2 st3.
    split; [|assumption].
    cbn [length]. rewrite length_app. cbn [length].
    replace (S (length l1 + S (length l2)) + fuel)
      with (S (length l1 + S (length l2 + fuel))) by lia.
    cbn [while_loop]. apply Nat.ltb_lt in Hi. rewrite Hi, Hbody.
    fold st1. rewrite Hrun1. fold st2.
    cbn [while_loop]. apply Nat.ltb_lt in Hi2. rewrite Hi2, Hbody2.
    fold st3.
    assert (Hnz : (brace_balance st2 - 1 =? 0)%Z = false).
    { apply Z.eqb_neq. unfold positive_balance, st2, st1, advance,
        advance_run in *. simpl. lia. }
    rewrite Hnz. exact Hrun3.
Qed.

Lemma while_loop_mono (w : str) (fuel : nat) :
  forall st r fuel',
    while_loop fuel w st = r -> r <> OutOfFuel -> fuel <= fuel' ->
    while_loop fuel' w st = r.
Proof.
  induction fuel as [|fuel IH]; intros st r fuel' Hr Hne Hle.
  - simpl in Hr. congruence.
  - destruct fuel' as [|fuel']; [lia|]. simpl in *.
    destruct (current_index st <? length w); [|assumption].
    destruct (loop_body w st) as [[st' [|]]|]; try assumption.
    apply IH; auto. lia.
Qed.

(** The opening marker found by the search is the first position at which
    the pattern matches. *)
Lemma template_start_first (w template_name : str) (p : nat) :
  template_start_match w template_name = Some p <->
  marker_at w template_name p /\
  forall q, q < p -> ~ marker_at w template_name q.
Proof.
  unfold template_start_match, marker_at.
  set (m := Re.rmatch (template_start_pattern template_name)
                      (fun _ => Some tt)).
  destruct (Re.search m 0 w) as [[p' a]|] eqn:Hs; simpl.
  - apply search_sound in Hs as (_ & Hlen & Hm & Hmin).
    rewrite Nat.sub_0_r in *. destruct a. split.
    + intros H; injection H as <-. repeat split; auto.
      intros q Hq [_ Hmq]. rewrite Hmin in Hmq by assumption. discriminate.
    + intros [[Hp Hmp] Hfirst]. f_equal.
      assert (p' < p \/ p < p' \/ p' = p) as [Hlt|[Hlt|Heq]] by lia; auto.
      * exfalso. apply (Hfirst p' Hlt). auto.
      * rewrite Hmin in Hmp by assumption. discriminate.
  - split; [discriminate|]. intros [[Hp Hmp] _].
    rewrite (search_complete m w 0 Hs p Hp) in Hmp. discriminate.
Qed.

(** The scan started at the marker of a well-formed instance returns that
    instance. *)
Lemma extract_instance (w template_name inst : str) (p : nat) :
  template_start_match w template_name = Some p ->
  well_formed_instance inst ->
  (exists post, skipn p w = inst ++ post) ->
  extractTemplate w template_name = TemplateSpan inst p.
Proof.
  intros Hm (body & Htok & Hbal) (post & Hpost).
  assert (Hrun : while_loop (S (length body + 1)) w (scan_init p)
                 = Broke (mkScan (p + length inst) 0 inst false)).
  { assert (Ht : tokens (skipn (current_index (scan_init p)) w)
                 = TOpen :: body ++ TClose :: tokens post).
    { cbn [current_index scan_init]. rewrite Hpost.
      rewrite (tokens_app_close post inst (TOpen :: body) Htok), Htok.
      cbn [app]. now rewrite <- app_assoc. }
    destruct (turn_token w (scan_init p) _ _ eq_refl Ht) as (Hi & Hbody & Ht1).
    cbn [while_loop]. apply Nat.ltb_lt in Hi. rewrite Hi, Hbody.
    set (st1 := advance TOpen (scan_init p)) in *.
    assert (Hb1 : positive_balance st1) by (unfold positive_balance; simpl; lia).
    destruct (run_balanced w body Hbal 1 st1 _ eq_refl Hb1 Ht1) as (-> & Ht2).
    set (st2 := advance_run body st1) in *.
    destruct (turn_token w st2 _ _ eq_refl Ht2) as (Hi2 & Hbody2 & _).
    cbn [while_loop]. apply Nat.ltb_lt in Hi2. rewrite Hi2, Hbody2.
    change (brace_balance st2 - 1 =? 0)%Z with true. cbv iota. f_equal.
    unfold advance, st2, advance_run, st1, advance.
    cbn [current_index brace_balance template_text scan_init brace_delta
         spell].
    assert (Hsp : inst = lit "{{" ++ spell_all body ++ lit "}}").
    { rewrite <- (spell_tokens inst), Htok. unfold spell_all.
      cbn [flat_map spell]. rewrite flat_map_app. cbn [flat_map spell].
      now rewrite app_nil_r. }
    f_equal.
    - rewrite Hsp, !length_app. lia.
    - rewrite Hsp. cbn [app lit]. rewrite <- !app_assoc. reflexivity. }
  unfold extractTemplate. rewrite Hm.
  destruct (scan_from_marker _ _ _ Hm)
    as (mid & last & _ & _ & _ & _ & Hend).
  assert (Hsame : while_loop (scan_fuel w) w (scan_init p)
                  = Broke (mkScan (p + length inst) 0 inst false)).
  { destruct (Nat.le_ge_cases (S (length body + 1)) (scan_fuel w)) as [Hle|Hge].
    - eapply while_loop_mono; eauto. discriminate.
    - destruct Hend as [(Hw & _)|(Hw & _)];
        assert (Hw' := while_loop_mono w _ _ _ _ Hw ltac:(discriminate) Hge);
        rewrite Hrun in Hw'; [|discriminate].
      rewrite Hw. symmetry. exact Hw'. }
  rewrite Hsame. reflexivity.
Qed.

(** ** The reading with comments *)

Lemma ctokens_normal (c1 : char) (r : str) :
  startswith (lit "<!--") (c1 :: r) = false ->
  ctokens Normal (c1 :: r)
  = match r with
    | [] => [TChar c1]
    | _ :: r' =>
        if startswith (lit "{{") (c1 :: r) then TOpen :: ctokens Normal r'
        else if startswith (lit "}}") (c1 :: r)
             then TClose :: ctokens Normal r'
             else TChar c1 :: ctokens Normal r
    end.
Proof.
  intros H. destruct r as [|c2 [|c3 [|c4 r4]]]; cbn [ctokens];
    try reflexivity.
  now rewrite H.
Qed.

(** A text without the character that opens a comment reads the same in
    both ways. *)
Lemma ctokens_without_comment (s : str) :
  ~ In (chr "<") s -> ctokens Normal s = tokens s.
Proof.
  assert (H : forall n s, length s <= n -> ~ In (chr "<") s ->
                          ctokens Normal s = tokens s).
  { clear s. induction n as [|n IH]; intros s Hn Hin.
    - destruct s; [reflexivity|simpl in Hn; lia].
    - destruct s as [|c1 r]; [reflexivity|].
      assert (Hsw : startswith (lit "<!--") (c1 :: r) = false).
      { lits. cbn [startswith].
        destruct (char_eqb 60%N c1) eqn:E; [|reflexivity].
        apply char_eqb_eq in E. exfalso. apply Hin. now left. }
      rewrite (ctokens_normal c1 r Hsw).
      destruct r as [|c2 r]; [reflexivity|]. rewrite tokens_two.
      simpl in Hn.
      assert (Hr : ctokens Normal r = tokens r).
      { apply IH; [lia|]. intros Hc. apply Hin. now right; right. }
      assert (Hr2 : ctokens Normal (c2 :: r) = tokens (c2 :: r)).
      { apply IH; [simpl; lia|]. intros Hc. apply Hin. now right. }
      now rewrite Hr, Hr2. }
  apply (H (length s)). lia.
Qed.

Lemma spec_well_formed_plain (inst : str) :
  comments_hold_no_braces inst ->
  spec_well_formed inst -> well_formed_instance inst.
Proof.
  unfold comments_hold_no_braces, spec_well_formed, well_formed_instance.
  intros <-. auto.
Qed.

Lemma balanced_chars (s : str) : balanced (map TChar s).
Proof. induction s; simpl; constructor; assumption. Qed.

(** C3, as stated, fails twice.  A text may contain a well-formed
    instance after an unterminated one, and then the scan, which starts at
    the first marker, runs to the end of the text.  And where the first
    marker does begin a well-formed instance, a closing pair of braces
    inside a comment of it ends the returned text. *)
Lemma C3_first_instance_counterexample :
  ~ (forall (w template_name inst : str) (p : nat),
       spec_instance_at w template_name p inst ->
       (forall q inst', q < p -> ~ spec_instance_at w template_name q inst') ->
       extractTemplate w template_name = TemplateSpan inst p) /\
  ~ (forall (w template_name inst : str) (p : nat),
       spec_instance_at w template_name p inst ->
       (forall q, q < p -> ~ marker_at w template_name q) ->
       extractTemplate w template_name = TemplateSpan inst p).
Proof.
  split; intros H; cycle 1.
  { specialize (H (lit "{{T|a=<!-- }} -->|b=c}}") (lit "T")
                  (lit "{{T|a=<!-- }} -->|b=c}}") 0).
    assert (Hex : extractTemplate (lit "{{T|a=<!-- }} -->|b=c}}") (lit "T")
                  = TemplateSpan (lit "{{T|a=<!-- }}") 0)
      by (vm_compute; reflexivity).
    rewrite Hex in H.
    assert (Hfalse : TemplateSpan (lit "{{T|a=<!-- }}") 0
                     = TemplateSpan (lit "{{T|a=<!-- }} -->|b=c}}") 0).
    { apply H; [|intros q Hq; lia].
      split; [split; [simpl; lia|vm_compute; reflexivity]|]. split.
      - exists (map TChar (lit "T|a=<!-- }} -->|b=c")).
        split; [vm_compute; reflexivity|apply balanced_chars].
      - exists []. vm_compute. reflexivity. }
    vm_compute in Hfalse. discriminate. }
  specialize (H (lit "{{T|u {{T|a}}") (lit "T") (lit "{{T|a}}") 6).
  assert (Hex : extractTemplate (lit "{{T|u {{T|a}}") (lit "T")
                = UnbalancedError) by reflexivity.
  rewrite Hex in H.
  assert (Hfalse : UnbalancedError = TemplateSpan (lit "{{T|a}}") 6);
    [|discriminate].
  apply H.
  - split; [split; [simpl; lia|reflexivity]|]. split.
    + exists [TChar (chr "T"); TChar (chr "|"); TChar (chr "a")].
      split; [reflexivity|]. repeat constructor.
    + exists []. reflexivity.
  - intros q inst' Hq (Hmark & Hwf & post & Hpost).
    destruct q as [|q].
    + assert (Hm : template_start_match (lit "{{T|u {{T|a}}") (lit "T")
                   = Some 0) by reflexivity.
      assert (Hplain : comments_hold_no_braces inst').
      { apply ctokens_without_comment. intros Hin.
        assert (Hin' : In (chr "<") (lit "{{T|u {{T|a}}")).
        { change (lit "{{T|u {{T|a}}") with (skipn 0 (lit "{{T|u {{T|a}}")).
          rewrite Hpost. apply in_or_app. now left. }
        vm_compute in Hin'. intuition discriminate. }
      pose proof (extract_instance _ _ _ _ Hm
                    (spec_well_formed_plain _ Hplain Hwf)
                    (ex_intro _ post Hpost)) as He.
      rewrite Hex in He. discriminate.
    + destruct Hmark as [_ Hmark].
      do 5 (destruct q as [|q]; [discriminate Hmark|]). lia.
Qed.

(** C3, amended.  When the first position at which the opening marker of
    the template matches is the start of a well-formed instance in which
    no pair of braces lies inside a comment, [extractTemplate] returns
    exactly the text of that instance, outer braces included and nested
    pairs of braces kept whole, with the position of the marker. *)
Theorem C3_extract_first_marker (w template_name inst : str) (p : nat) :
  spec_instance_at w template_name p inst ->
  comments_hold_no_braces inst ->
  (forall q, q < p -> ~ marker_at w template_name q) ->
  extractTemplate w template_name = TemplateSpan inst p.
Proof.
  intros (Hmark & Hwf & Hpost) Hplain Hfirst.
  apply extract_instance; auto.
  - apply template_start_first. auto.
  - now apply spec_well_formed_plain.
Qed.

(** The text the scan returns on a template with a closing pair of braces
    in a comment is cut inside the comment: it is not a well-formed
    instance, and the whole template, which is one, is not what the
    hypotheses of C3 accept. *)
Example truncated_span_not_well_formed :
  ~ spec_well_formed (lit "{{T|a=<!-- }}") /\
  spec_well_formed (lit "{{T|a=<!-- }} -->|b=c}}") /\
  ~ comments_hold_no_braces (lit "{{T|a=<!-- }} -->|b=c}}").
Proof.
  split; [|split].
  - intros (body & H & _).
    apply (f_equal (fun l => last l TOpen)) in H.
    change (TOpen :: body ++ [TClose]) with ((TOpen :: body) ++ [TClose]) in H.
    rewrite last_last in H. vm_compute in H. discriminate.
  - exists (map TChar (lit "T|a=<!-- }} -->|b=c")).
    split; [vm_compute; reflexivity|apply balanced_chars].
  - unfold comments_hold_no_braces. vm_compute. discriminate.
Qed.

(** The example of the specification, with a comment put in it, as an
    instance of C3. *)
Lemma C3_extract_first_marker_witness :
  extractTemplate (lit "{{T|a={{b}}<!-- note -->|c=d}}") (lit "T")
  = TemplateSpan (lit "{{T|a={{b}}<!-- note -->|c=d}}") 0.
Proof.
  apply (C3_extract_first_marker (lit "{{T|a={{b}}<!-- note -->|c=d}}")
           (lit "T") (lit "{{T|a={{b}}<!-- note -->|c=d}}") 0).
  - split; [split; [vm_compute; lia|vm_compute; reflexivity]|]. split.
    + exists (map TChar (lit "T|a=")
              ++ TOpen :: map TChar (lit "b")
              ++ TClose :: map TChar (lit "<!-- note -->|c=d")).
      split; [vm_compute; reflexivity|].
      change (map TChar (lit "T|a="))
        with [TChar (chr "T"); TChar (chr "|"); TChar (chr "a");
              TChar (chr "=")].
      cbn [app]. do 4 apply balanced_char.
      apply balanced_nest; apply balanced_chars.
    + exists []. vm_compute. reflexivity.
  - vm_compute. reflexivity.
  - intros q Hq. lia.
Defined.

Example extract_spec_example :
  extractTemplate (lit "{{T|a={{b}}|c=d}}") (lit "T")
  = TemplateSpan (lit "{{T|a={{b}}|c=d}}") 0.
Proof. reflexivity. Qed.

(** ** The end of the text *)

Lemma depth_cons_firstn (t : token) (l : list token) (k : nat) :
  depth (firstn (S k) (t :: l)) = (brace_delta t + depth (firstn k l))%Z.
Proof. reflexivity. Qed.

Lemma tokens_nonempty (s : str) :
  s <> [] -> exists t l, tokens s = t :: l.
Proof.
  destruct s as [|c1 [|c2 r]]; [congruence| |]; intros _.
  - simpl. eauto.
  - rewrite tokens_two.
    destruct (startswith _ _); [eauto|]. destruct (startswith _ _); eauto.
Qed.

(** A scan that goes to the end of the text never saw the depth at 0, and
    ends with the depth of the whole text. *)
Lemma exhausted_depth (w : str) (fuel : nat) :
  forall st last,
    in_comment st = false ->
    positive_balance st ->
    while_loop fuel w st = Exhausted last ->
    (forall k, 0 < k <= length (tokens (skipn (current_index st) w)) ->
       (0 < brace_balance st
            + depth (firstn k (tokens (skipn (current_index st) w))))%Z) /\
    brace_balance last
    = (brace_balance st + depth (tokens (skipn (current_index st) w)))%Z.
Proof.
  induction fuel as [|fuel IH]; intros st last Hc Hb Hrun; [discriminate|].
  simpl in Hrun.
  destruct (current_index st <? length w) eqn:Hlt.
  - apply Nat.ltb_lt in Hlt.
    destruct (skipn_cons_inv w _ Hlt) as (c & r & Hs).
    destruct (tokens_nonempty (skipn (current_index st) w)) as (t & l0 & Ht);
      [rewrite Hs; discriminate|].
    destruct (turn_token w st t l0 Hc Ht) as (_ & Hbody & Hl0).
    rewrite Hbody in Hrun. rewrite Ht.
    assert (Hnext : while_loop fuel w (advance t st) = Exhausted last /\
                    positive_balance (advance t st)).
    { unfold positive_balance in *. destruct t; cbn [advance brace_balance
        brace_delta]; try (split; [assumption|lia]).
      destruct (brace_balance st - 1 =? 0)%Z eqn:E; [discriminate|].
      apply Z.eqb_neq in E. split; [assumption|lia]. }
    destruct Hnext as [Hrun' Hb'].
    destruct (IH (advance t st) last eq_refl Hb' Hrun') as [Hpos Hlast].
    rewrite Hl0 in Hpos, Hlast. cbn [advance brace_balance] in Hpos, Hlast.
    split.
    + intros [|k] Hk; [lia|]. rewrite depth_cons_firstn.
      destruct k as [|k].
      * simpl. unfold positive_balance in Hb'. cbn [advance brace_balance] in Hb'.
        lia.
      * specialize (Hpos (S k)). simpl in Hk.
        assert (Hk' : 0 < S k <= length l0) by lia.
        specialize (Hpos Hk'). lia.
    + rewrite Hlast. simpl. lia.
  - injection Hrun as <-. apply Nat.ltb_ge in Hlt.
    rewrite skipn_all2 by assumption. simpl.
    split; [intros k Hk; lia|lia].
Qed.

(** A scan that ends in [break] saw the depth at 0. *)
Lemma broke_depth (w : str) (fuel : nat) :
  forall st last,
    in_comment st = false ->
    while_loop fuel w st = Broke last ->
    exists k, 0 < k <= length (tokens (skipn (current_index st) w)) /\
      (brace_balance st
       + depth (firstn k (tokens (skipn (current_index st) w))) = 0)%Z.
Proof.
  induction fuel as [|fuel IH]; intros st last Hc Hrun; [discriminate|].
  simpl in Hrun.
  destruct (current_index st <? length w) eqn:Hlt; [|discriminate].
  apply Nat.ltb_lt in Hlt.
  destruct (skipn_cons_inv w _ Hlt) as (c & r & Hs).
  destruct (tokens_nonempty (skipn (current_index st) w)) as (t & l0 & Ht);
    [rewrite Hs; discriminate|].
  destruct (turn_token w st t l0 Hc Ht) as (_ & Hbody & Hl0).
  rewrite Hbody in Hrun. rewrite Ht.
  assert (Hcase : (t = TClose /\ (brace_balance st - 1 = 0)%Z) \/
                  while_loop fuel w (advance t st) = Broke last).
  { destruct t; auto.
    destruct (brace_balance st - 1 =? 0)%Z eqn:E; [|auto].
    apply Z.eqb_eq in E. auto. }
  destruct Hcase as [[-> Hz]|Hrun'].
  - exists 1. simpl. split; lia.
  - destruct (IH (advance t st) last eq_refl Hrun') as (k & Hk & Hd).
    rewrite Hl0 in Hk, Hd. cbn [advance brace_balance] in Hd.
    exists (S k). rewrite depth_cons_firstn. simpl. split; lia.
Qed.

Lemma marker_tokens (w template_name : str) (p : nat) :
  template_start_match w template_name = Some p ->
  exists l, tokens (skipn p w) = TOpen :: l.
Proof.
  intros Hm. destruct (template_start_braces _ _ _ Hm) as (r & Hr).
  rewrite Hr. exists (tokens r).
  change (lit "{{" ++ r) with (123%N :: 123%N :: r).
  destruct r; reflexivity.
Qed.

(** C5. [extractTemplate] fails with [UnbalancedError] exactly when the
    opening marker is found and, from it, the scan reaches the end of the
    text without the depth of braces ever coming back to 0; the loop then
    stops with its index at the end of the text and its balance, which is
    the depth of the whole text from the marker, above 0.  The truncated
    text of the example is such a case; a closed template is not. *)
Theorem C5_unbalanced_iff :
  (forall w template_name : str,
     extractTemplate w template_name = UnbalancedError <->
     exists start,
       template_start_match w template_name = Some start /\
       never_closed (tokens (skipn start w))) /\
  (forall (w template_name : str) (start : nat),
     template_start_match w template_name = Some start ->
     (never_closed (tokens (skipn start w)) <->
      length w <= current_index (final_state w start) /\
      (0 < brace_balance (final_state w start))%Z) /\
     (never_closed (tokens (skipn start w)) ->
      current_index (final_state w start) = length w /\
      brace_balance (final_state w start)
      = depth (tokens (skipn start w)))) /\
  extractTemplate (lit "{{T|unterminated") (lit "T") = UnbalancedError /\
  extractTemplate (lit "{{T|a={{b}}|unterminated") (lit "T")
    = UnbalancedError /\
  extractTemplate (lit "{{T}}") (lit "T") = TemplateSpan (lit "{{T}}") 0 /\
  extractTemplate (lit "{{T|a}} {{x") (lit "T")
    = TemplateSpan (lit "{{T|a}}") 0.
Proof.
  assert (Hkey : forall w template_name start,
            template_start_match w template_name = Some start ->
            (never_closed (tokens (skipn start w)) /\
             while_loop (scan_fuel w) w (scan_init start)
               = Exhausted (final_state w start) /\
             current_index (final_state w start) = length w /\
             (0 < brace_balance (final_state w start))%Z /\
             brace_balance (final_state w start)
               = depth (tokens (skipn start w))) \/
            (~ never_closed (tokens (skipn start w)) /\
             brace_balance (final_state w start) = 0%Z /\
             exists last, while_loop (scan_fuel w) w (scan_init start)
                          = Broke last)).
  { intros w template_name start Hm.
    destruct (scan_from_marker _ _ _ Hm)
      as (mid & st & Htr & Hmid & Hil & Htl & Hend).
    assert (Hfin : final_state w start = st).
    { unfold final_state. now rewrite Htr, app_comm_cons, last_last. }
    rewrite Hfin.
    destruct (marker_tokens _ _ _ Hm) as (l0 & Htok).
    assert (Ht0 : tokens (skipn (current_index (scan_init start)) w)
                  = TOpen :: l0) by exact Htok.
    destruct (turn_token w (scan_init start) _ _ eq_refl Ht0)
      as (Hi & Hbody & Ht1).
    apply Nat.ltb_lt in Hi.
    destruct Hend as [(Hrun & Hz & _)|(Hrun & Hp & Hl)].
    - right. split; [|split; [assumption|eauto]].
      intros Hnever.
      destruct (broke_depth w _ (scan_init start) st eq_refl Hrun) as (k & Hk & Hd).
      specialize (Hnever k Hk). simpl in Hd. lia.
    - left. pose proof Hrun as Hrun0.
      unfold scan_fuel in Hrun. cbn [while_loop] in Hrun.
      rewrite Hi, Hbody in Hrun.
      assert (Hb1 : positive_balance (advance TOpen (scan_init start))).
      { unfold positive_balance. simpl. lia. }
      destruct (exhausted_depth w _ (advance TOpen (scan_init start)) st eq_refl Hb1 Hrun) as [Hpos Hlast].
      rewrite Ht1 in Hpos, Hlast. cbn [advance brace_balance scan_init
        brace_delta] in Hpos, Hlast.
      unfold positive_balance in Hp.
      repeat split; auto; try lia.
      + intros [|k] Hk; [lia|]. rewrite Htok in *. rewrite depth_cons_firstn.
        destruct k as [|k]; [simpl; lia|].
        simpl in Hk. assert (Hk' : 0 < S k <= length l0) by lia.
        specialize (Hpos (S k) Hk'). simpl brace_delta. lia.
      + rewrite Htok. cbn [depth brace_delta]. lia. }
  split; [|split; [|repeat split]].
  - intros w template_name. unfold extractTemplate.
    destruct (template_start_match w template_name) as [start|] eqn:Hm.
    + destruct (Hkey _ _ _ Hm) as [(Hn & -> & _)|(Hn & _ & last & ->)]; split.
      * eauto.
      * reflexivity.
      * discriminate.
      * intros (start' & Hs & Hn'). injection Hs as <-. contradiction.
    + split; [discriminate|]. intros (start & Hs & _). discriminate.
  - intros w template_name start Hm.
    destruct (Hkey _ _ _ Hm) as [(Hn & _ & Hi & Hp & Hd)|(Hn & Hz & _)].
    + split; [split; [intros _; split; [lia|assumption]|auto]|auto].
    + split; [split; [contradiction|]|contradiction].
      intros [_ Hp]. lia.
Qed.

(** ** The matcher against the meaning of the patterns *)

Lemma rmatch_star_nil {A : Type} (cls : char -> bool) (rest : list Re.item)
  (k : str -> option A) :
  Re.rmatch (Re.Star cls :: rest) k [] = Re.rmatch rest k [].
Proof. reflexivity. Qed.

Lemma rmatch_star_cons {A : Type} (cls : char -> bool) (rest : list Re.item)
  (k : str -> option A) (c : char) (s : str) :
  Re.rmatch (Re.Star cls :: rest) k (c :: s)
  = if cls c
    then match Re.rmatch (Re.Star cls :: rest) k s with
         | Some a => Some a
         | None => Re.rmatch rest k (c :: s)
         end
    else Re.rmatch rest k (c :: s).
Proof. reflexivity. Qed.

Lemma first_some_in {A : Type} (l : list (option A)) (a : A) :
  Re.first_some l = Some a -> In (Some a) l.
Proof.
  induction l as [|[x|] l IH]; simpl; [discriminate| |]; intros H.
  - left. assumption.
  - right. auto.
Qed.

Lemma first_some_ex {A : Type} (l : list (option A)) (a : A) :
  In (Some a) l -> exists a', Re.first_some l = Some a'.
Proof.
  induction l as [|[x|] l IH]; simpl; [contradiction| |]; intros H.
  - eauto.
  - destruct H as [H|H]; [discriminate|auto].
Qed.

Lemma rmatch_lit_inv {A : Type} (l : str) (rest : list Re.item)
  (k : str -> option A) (s : str) (a : A) :
  Re.rmatch (Re.Lit l :: rest) k s = Some a ->
  exists x, s = l ++ x /\ Re.rmatch rest k x = Some a.
Proof.
  cbn [Re.rmatch]. destruct (startswith l s) eqn:Hsw; [|discriminate].
  apply startswith_inv in Hsw. intros H. eauto.
Qed.

Lemma rmatch_alt_inv {A : Type} (alts : list str) (rest : list Re.item)
  (k : str -> option A) (s : str) (a : A) :
  Re.rmatch (Re.Alt alts :: rest) k s = Some a ->
  exists l x, In l alts /\ s = l ++ x /\ Re.rmatch rest k x = Some a.
Proof.
  cbn [Re.rmatch]. intros H. apply first_some_in in H.
  apply in_map_iff in H as (l & Hl & Hin).
  destruct (startswith l s) eqn:Hsw; [|discriminate].
  apply startswith_inv in Hsw. eauto.
Qed.

(** Where the rest of the pattern matches after a run of the class, the
    star matches too. *)
Lemma rmatch_star_some {A : Type} (cls : char -> bool)
  (rest : list Re.item) (k : str -> option A) (ws s : str) (a : A) :
  forallb cls ws = true ->
  Re.rmatch rest k s = Some a ->
  exists a', Re.rmatch (Re.Star cls :: rest) k (ws ++ s) = Some a'.
Proof.
  intros Hws Ha.
  assert (Hbase : exists a', Re.rmatch (Re.Star cls :: rest) k s = Some a').
  { destruct s as [|c r].
    - rewrite rmatch_star_nil. eauto.
    - rewrite rmatch_star_cons.
      destruct (cls c); [|eauto].
      destruct (Re.rmatch (Re.Star cls :: rest) k r); eauto. }
  clear Ha. induction ws as [|c ws IHws]; [exact Hbase|].
  simpl in Hws. apply andb_true_iff in Hws as [Hc Hws].
  destruct (IHws Hws) as (a'' & Ha'').
  cbn [app]. rewrite rmatch_star_cons, Hc, Ha''. eauto.
Qed.

(** A star takes the longest run of its class after which the rest of the
    pattern matches. *)
Lemma rmatch_star_greedy {A : Type} (cls : char -> bool)
  (rest : list Re.item) (k : str -> option A) :
  forall s a,
    Re.rmatch (Re.Star cls :: rest) k s = Some a ->
    exists ws x,
      s = ws ++ x /\ forallb cls ws = true /\
      Re.rmatch rest k x = Some a /\
      forall ws' x', s = ws' ++ x' -> forallb cls ws' = true ->
                     length ws < length ws' ->
                     Re.rmatch rest k x' = None.
Proof.
  induction s as [|c s IH]; intros a H.
  - rewrite rmatch_star_nil in H. exists [], []. repeat split; auto.
    intros ws' x' Hs _ Hlen. destruct ws'; [simpl in Hlen; lia|discriminate].
  - rewrite rmatch_star_cons in H.
    assert (Hshort : Re.rmatch rest k (c :: s) = Some a ->
              (forall ws' x', s = ws' ++ x' -> forallb cls ws' = true ->
                              cls c = true -> Re.rmatch rest k x' = None) ->
              exists ws x,
                c :: s = ws ++ x /\ forallb cls ws = true /\
                Re.rmatch rest k x = Some a /\
                forall ws' x', c :: s = ws' ++ x' -> forallb cls ws' = true ->
                               length ws < length ws' ->
                               Re.rmatch rest k x' = None).
    { intros Ha Hnone. exists [], (c :: s). repeat split; auto.
      intros ws' x' Hs Hws' Hlen.
      destruct ws' as [|c' ws']; [simpl in Hlen; lia|].
      injection Hs as <- Hs. simpl in Hws'.
      apply andb_true_iff in Hws' as [Hc Hws']. eauto. }
    destruct (cls c) eqn:Hc.
    + destruct (Re.rmatch (Re.Star cls :: rest) k s) as [a'|] eqn:Hstar.
      * injection H as ->.
        destruct (IH a eq_refl) as (ws & x & Hs & Hws & Hx & Hmax).
        exists (c :: ws), x. subst s. repeat split; auto.
        { simpl. now rewrite Hc, Hws. }
        intros ws' x' Hs' Hws' Hlen.
        destruct ws' as [|c' ws']; [simpl in Hlen; lia|].
        injection Hs' as <- Hs'. simpl in Hws'.
        apply andb_true_iff in Hws' as [_ Hws'].
        apply (Hmax ws' x'); auto. simpl in Hlen. lia.
      * apply Hshort; [assumption|].
        intros ws' x' Hs Hws' _.
        destruct (Re.rmatch rest k x') as [b|] eqn:Hx; [|reflexivity].
        destruct (rmatch_star_some cls rest k ws' x' b Hws' Hx) as (b' & Hb').
        rewrite <- Hs, Hstar in Hb'. discriminate.
    + apply Hshort; [assumption|]. intros; discriminate.
Qed.

(** What the matcher accepts is an instance of the pattern. *)
Lemma rmatch_sound {A : Type} (k : str -> option A) (items : list Re.item) :
  forall s a,
    Re.rmatch items k s = Some a ->
    exists pre post, s = pre ++ post /\ matches items pre /\ k post = Some a.
Proof.
  induction items as [|[l|alts|cls] rest IH]; intros s a H.
  - exists [], s. simpl in *. auto.
  - apply rmatch_lit_inv in H as (x & -> & H).
    apply IH in H as (pre & post & -> & Hm & Hk).
    exists (l ++ pre), post. rewrite <- app_assoc.
    repeat split; auto. simpl. eauto.
  - apply rmatch_alt_inv in H as (l & x & Hin & -> & H).
    apply IH in H as (pre & post & -> & Hm & Hk).
    exists (l ++ pre), post. rewrite <- app_assoc.
    repeat split; auto. simpl. eauto 6.
  - apply rmatch_star_greedy in H as (ws & x & -> & Hws & H & _).
    apply IH in H as (pre & post & -> & Hm & Hk).
    exists (ws ++ pre), post. rewrite <- app_assoc.
    repeat split; auto. simpl. eauto 6.
Qed.

(** Where an instance of the pattern starts, the matcher accepts one (by
    backtracking, not necessarily the same). *)
Lemma rmatch_complete {A : Type} (k : str -> option A) (items : list Re.item) :
  forall pre post a,
    matches items pre -> k post = Some a ->
    exists a', Re.rmatch items k (pre ++ post) = Some a'.
Proof.
  induction items as [|[l|alts|cls] rest IH]; intros pre post a Hm Hk.
  - simpl in *. subst pre. eauto.
  - simpl in Hm. destruct Hm as (s & -> & Hm).
    cbn [Re.rmatch]. rewrite <- app_assoc, startswith_app.
    rewrite skipn_app, skipn_all, Nat.sub_diag. simpl. eauto.
  - simpl in Hm. destruct Hm as (l & s & Hin & -> & Hm).
    cbn [Re.rmatch].
    destruct (IH s post a Hm Hk) as (a' & Ha').
    apply first_some_ex with (a := a'). apply in_map_iff.
    exists l. split; [|assumption].
    rewrite <- app_assoc, startswith_app.
    rewrite skipn_app, skipn_all, Nat.sub_diag. simpl. assumption.
  - simpl in Hm. destruct Hm as (ws & s & Hws & -> & Hm).
    destruct (IH s post a Hm Hk) as (a' & Ha').
    rewrite <- app_assoc. now apply rmatch_star_some with (a := a').
Qed.

Lemma takewhile_dropwhile (f : char -> bool) (s : str) :
  s = takewhile f s ++ dropwhile f s /\
  forallb f (takewhile f s) = true /\
  match dropwhile f s with
  | [] => True
  | c :: _ => f c = false
  end.
Proof.
  induction s as [|c s (IH1 & IH2 & IH3)]; simpl; auto.
  destruct (f c) eqn:Hc; simpl.
  - rewrite Hc, IH2. repeat split; auto. now f_equal.
  - auto.
Qed.

Lemma capture_plus_sound (s raw : str) :
  Re.capture_plus value_char s = Some raw ->
  raw <> [] /\ forallb value_char raw = true /\
  exists rest, s = raw ++ rest /\
               match rest with
               | [] => True
               | c :: _ => value_char c = false
               end.
Proof.
  unfold Re.capture_plus.
  destruct (takewhile_dropwhile value_char s) as (Hs & Hall & Hrest).
  destruct (takewhile value_char s) as [|c v] eqn:Ht; [discriminate|].
  intros H; injection H as <-.
  repeat split; auto; [discriminate|]. eauto.
Qed.

Lemma capture_plus_complete (raw rest : str) :
  raw <> [] -> forallb value_char raw = true ->
  exists raw', Re.capture_plus value_char (raw ++ rest) = Some raw'.
Proof.
  destruct raw as [|c raw]; [congruence|]. simpl.
  intros _ H. apply andb_true_iff in H as [Hc _].
  unfold Re.capture_plus. simpl. rewrite Hc. eauto.
Qed.

(** ** [extractField] against the readings of an assignment *)

Lemma app_same_length {A : Type} (a b x y : list A) :
  a ++ x = b ++ y -> length a = length b -> a = b /\ x = y.
Proof.
  revert b. induction a as [|c a IH]; intros [|d b] H Hlen;
    try discriminate; simpl in *; auto.
  injection H as -> H. injection Hlen as Hlen.
  destruct (IH b H Hlen) as [-> ->]. auto.
Qed.

Lemma delim_unique (d d' x x' : str) :
  d = lit "|" \/ d = lit "{{" ->
  d' = lit "|" \/ d' = lit "{{" ->
  d ++ x = d' ++ x' -> d = d' /\ x = x'.
Proof.
  intros [-> | ->] [-> | ->]; lits; simpl; intros H;
    try discriminate; injection H as ->; auto.
Qed.

Lemma rmatch_lit_app {A : Type} (l : str) (rest : list Re.item)
  (k : str -> option A) (x : str) :
  Re.rmatch (Re.Lit l :: rest) k (l ++ x) = Re.rmatch rest k x.
Proof.
  cbn [Re.rmatch]. rewrite startswith_app.
  rewrite skipn_app, skipn_all, Nat.sub_diag. reflexivity.
Qed.

Lemma equals_tail_match (ws3 raw rest : str) :
  forallb isspace ws3 = true ->
  raw <> [] -> forallb value_char raw = true ->
  exists a,
    Re.rmatch [Re.Lit (lit "="); Re.Star isspace]
              (Re.capture_plus value_char)
              (lit "=" ++ ws3 ++ raw ++ rest) = Some a.
Proof.
  intros Hw3 Hne Hall. rewrite rmatch_lit_app.
  destruct (capture_plus_complete raw rest Hne Hall) as (r & Hr).
  apply rmatch_star_some with (a := r); [assumption|exact Hr].
Qed.

Lemma name_tail_match (f ws2 ws3 raw rest : str) :
  forallb isspace ws2 = true -> forallb isspace ws3 = true ->
  raw <> [] -> forallb value_char raw = true ->
  exists a,
    Re.rmatch [Re.Lit f; Re.Star isspace; Re.Lit (lit "="); Re.Star isspace]
              (Re.capture_plus value_char)
              (f ++ ws2 ++ lit "=" ++ ws3 ++ raw ++ rest) = Some a.
Proof.
  intros Hw2 Hw3 Hne Hall. rewrite rmatch_lit_app.
  destruct (equals_tail_match ws3 raw rest Hw3 Hne Hall) as (a & Ha).
  apply rmatch_star_some with (a := a); assumption.
Qed.

(** Where an assignment can be read, the field pattern matches. *)
Lemma field_pattern_complete (t f : str) (p : nat) (raw : str) :
  assignment_at t f p raw ->
  exists raw',
    Re.rmatch (field_pattern f) (Re.capture_plus value_char) (skipn p t)
    = Some raw'.
Proof.
  intros (delim & ws1 & ws2 & ws3 & rest & Hp & Hs & Hd & Hw1 & Hw2 & Hw3 &
          Hne & Hall & Hrest).
  rewrite Hs. unfold field_pattern.
  destruct (name_tail_match f ws2 ws3 raw rest Hw2 Hw3 Hne Hall) as (a & Ha).
  destruct (rmatch_star_some isspace _ _ ws1 _ a Hw1 Ha) as (a' & Ha').
  cbn [Re.rmatch map Re.first_some].
  destruct Hd as [-> | ->].
  - rewrite startswith_app, skipn_app, skipn_all, Nat.sub_diag.
    cbn [skipn app]. cbn [Re.rmatch] in Ha'. rewrite Ha'. eauto.
  - replace (startswith (lit "|") (lit "{{" ++ ws1 ++ f ++ ws2 ++ lit "=" ++
                                   ws3 ++ raw ++ rest)) with false
      by reflexivity.
    rewrite startswith_app, skipn_app, skipn_all, Nat.sub_diag.
    cbn [skipn app]. cbn [Re.rmatch] in Ha'. rewrite Ha'. eauto.
Qed.

(** What the field pattern matches is a reading of an assignment, and the
    one the greedy stars prefer among those of its position. *)
Lemma field_pattern_reading (f s raw : str) :
  Re.rmatch (field_pattern f) (Re.capture_plus value_char) s = Some raw ->
  exists delim ws1 ws2 ws3 rest,
    s = delim ++ ws1 ++ f ++ ws2 ++ lit "=" ++ ws3 ++ raw ++ rest /\
    (delim = lit "|" \/ delim = lit "{{") /\
    forallb isspace ws1 = true /\
    forallb isspace ws2 = true /\
    forallb isspace ws3 = true /\
    raw <> [] /\
    forallb value_char raw = true /\
    match rest with
    | [] => True
    | c :: _ => value_char c = false
    end /\
    forall delim' ws1' ws2' ws3' raw' rest',
      s = delim' ++ ws1' ++ f ++ ws2' ++ lit "=" ++ ws3' ++ raw' ++ rest' ->
      (delim' = lit "|" \/ delim' = lit "{{") ->
      forallb isspace ws1' = true ->
      forallb isspace ws2' = true ->
      forallb isspace ws3' = true ->
      raw' <> [] ->
      forallb value_char raw' = true ->
      less_greedy (length ws1') (length ws2') (length ws3')
                  (length ws1) (length ws2) (length ws3).
Proof.
  unfold field_pattern. intros H.
  apply rmatch_alt_inv in H as (delim & x0 & Hin & -> & H).
  apply rmatch_star_greedy in H as (ws1 & x1 & -> & Hw1 & H & G1).
  apply rmatch_lit_inv in H as (x2 & -> & H).
  apply rmatch_star_greedy in H as (ws2 & x3 & -> & Hw2 & H & G2).
  apply rmatch_lit_inv in H as (x4 & -> & H).
  apply rmatch_star_greedy in H as (ws3 & x5 & -> & Hw3 & H & G3).
  cbn [Re.rmatch] in H.
  apply capture_plus_sound in H as (Hne & Hall & rest & -> & Hrest).
  assert (Hd : delim = lit "|" \/ delim = lit "{{").
  { destruct Hin as [<-|[<-|[]]]; auto. }
  exists delim, ws1, ws2, ws3, rest.
  do 8 (split; [solve [auto]|]).
  intros delim' ws1' ws2' ws3' raw' rest' Hs Hd' Hw1' Hw2' Hw3' Hne' Hall'.
  destruct (delim_unique _ _ _ _ Hd Hd' Hs) as [<- Hx].
  destruct (Nat.lt_trichotomy (length ws1') (length ws1)) as [Hlt|[Heq|Hgt]].
  - left. assumption.
  - right. split; [assumption|].
    destruct (app_same_length _ _ _ _ Hx (eq_sym Heq)) as [<- Hx1].
    apply app_inv_head in Hx1.
    destruct (Nat.lt_trichotomy (length ws2') (length ws2)) as [Hlt|[Heq2|Hgt]].
    + left. assumption.
    + right. split; [assumption|].
      destruct (app_same_length _ _ _ _ Hx1 (eq_sym Heq2)) as [<- Hx2].
      apply app_inv_head in Hx2.
      destruct (Nat.le_gt_cases (length ws3') (length ws3)) as [Hle|Hgt];
        [assumption|exfalso].
      specialize (G3 ws3' _ Hx2 Hw3' Hgt).
      destruct (capture_plus_complete raw' rest' Hne' Hall') as (r & Hr).
      cbn [Re.rmatch] in G3. rewrite Hr in G3. discriminate.
    + exfalso. specialize (G2 ws2' _ Hx1 Hw2' Hgt).
      destruct (equals_tail_match ws3' raw' rest' Hw3' Hne' Hall') as (a & Ha).
      rewrite Ha in G2. discriminate.
  - exfalso. specialize (G1 ws1' _ Hx Hw1' Hgt).
    destruct (name_tail_match f ws2' ws3' raw' rest' Hw2' Hw3' Hne' Hall')
      as (a & Ha).
    rewrite Ha in G1. discriminate.
Qed.

Lemma value_char_excludes (raw : str) :
  forallb value_char raw = true ->
  ~ In (chr "|") raw /\ ~ In LF raw /\ ~ In CR raw /\ ~ In (chr "}") raw.
Proof.
  intros H. rewrite forallb_forall in H.
  repeat split; intros Hin; apply H in Hin; discriminate.
Qed.



(** The raw value the search returns is that of the preferred reading at
    the leftmost position at which an assignment can be read. *)
Lemma field_match_reading (t f raw : str) :
  field_match t f = Some raw ->
  exists p delim ws1 ws2 ws3 rest,
    assignment_split t f p delim ws1 ws2 ws3 raw rest /\
    (forall q raw', q < p -> ~ assignment_at t f q raw') /\
    (forall delim' ws1' ws2' ws3' raw' rest',
       assignment_split t f p delim' ws1' ws2' ws3' raw' rest' ->
       less_greedy (length ws1') (length ws2') (length ws3')
                   (length ws1) (length ws2) (length ws3)).
Proof.
  unfold field_match.
  destruct (Re.search _ 0 t) as [[p a]|] eqn:Hs; [|discriminate].
  simpl. intros H; injection H as ->.
  apply search_sound in Hs as (_ & Hp & Hm & Hmin).
  rewrite Nat.sub_0_r in *.
  apply field_pattern_reading in Hm
    as (delim & ws1 & ws2 & ws3 & rest & Hs & Hd & Hw1 & Hw2 & Hw3 & Hne &
        Hall & Hrest & Hgreedy).
  exists p, delim, ws1, ws2, ws3, rest. split; [|split].
  - unfold assignment_split. do 8 (split; [solve [auto]|]). assumption.
  - intros q raw' Hq Hat.
    apply field_pattern_complete in Hat as (raw'' & Hm').
    rewrite Hmin in Hm' by assumption. discriminate.
  - intros delim' ws1' ws2' ws3' raw' rest'
           (_ & Hs' & Hd' & Hw1' & Hw2' & Hw3' & Hne' & Hall' & _).
    apply (Hgreedy delim' ws1' ws2' ws3' raw' rest'); auto.
Qed.




(** ** [replace], [strip] and the sanitizer *)

Lemma replace_from_skip (old new : str) (r rest : str) :
  replace_from old new (length r) (r ++ rest) = replace_from old new 0 rest.
Proof.
  induction r as [|c r IH]; simpl; [reflexivity|]. exact IH.
Qed.

(** A name that ends with [old] and holds it nowhere else loses exactly
    that suffix. *)
Lemma replace_only_suffix (old base : str) :
  old <> [] ->
  (forall q, q < length base ->
             startswith old (skipn q (base ++ old)) = false) ->
  replace old (lit "") (base ++ old) = base.
Proof.
  intros Hne. destruct old as [|o old]; [congruence|].
  change (lit "") with (@nil char). unfold replace.
  induction base as [|b base IH]; intros Hocc.
  - cbn [app replace_from].
    rewrite startswith_refl. cbn [app length Nat.sub].
    rewrite Nat.sub_0_r.
    pose proof (replace_from_skip (o :: old) [] old []) as Hskip.
    rewrite app_nil_r in Hskip. exact Hskip.
  - cbn [app replace_from].
    pose proof (Hocc 0 ltac:(simpl; lia)) as H0. cbn [skipn app] in H0.
    rewrite H0. f_equal.
    apply IH. intros q Hq. apply (Hocc (S q)). simpl. lia.
Qed.

(** A name that does not hold [old] is left as it is. *)
Lemma replace_absent (old s : str) :
  old <> [] -> contains old s = false -> replace old (lit "") s = s.
Proof.
  intros Hne. destruct old as [|o old]; [congruence|].
  change (lit "") with (@nil char). unfold replace.
  induction s as [|c s IH]; [reflexivity|].
  cbn [contains replace_from]. intros H.
  apply orb_false_iff in H as [Hsw Hc]. rewrite Hsw. f_equal. auto.
Qed.

Lemma replace_dot (s : str) :
  replace (lit ".") (lit "") s = filter (fun c => negb (char_eqb DOT c)) s.
Proof.
  change (lit ".") with [DOT]. change (lit "") with (@nil char).
  unfold replace. induction s as [|c s IH]; [reflexivity|].
  cbn [replace_from startswith filter length Nat.sub app].
  rewrite andb_true_r.
  destruct (char_eqb DOT c); cbn [negb]; now rewrite IH.
Qed.

Lemma sub_runs_nil (cls : char -> bool) (s : str) :
  sub_runs cls false s = [] -> s = [].
Proof.
  destruct s as [|c s]; [reflexivity|]. simpl.
  destruct (cls c); discriminate.
Qed.

Lemma filter_nil_iff {A : Type} (f : A -> bool) (l : list A) :
  filter f l = [] <-> forall x, In x l -> f x = false.
Proof.
  induction l as [|a l IH]; simpl.
  - split; [intros _ x []|reflexivity].
  - destruct (f a) eqn:Hfa; split.
    + discriminate.
    + intros H. rewrite (H a) in Hfa by auto. discriminate.
    + intros H x [<-|Hx]; [assumption|]. now apply IH.
    + intros H. apply IH. auto.
Qed.

Lemma dropwhile_all (f : char -> bool) (s : str) :
  forallb f s = true -> dropwhile f s = [].
Proof.
  induction s as [|c s IH]; simpl; [reflexivity|].
  intros H. apply andb_true_iff in H as [-> Hs]. auto.
Qed.

Lemma strip_blank (s : str) : forallb isspace s = true -> strip s = [].
Proof.
  intros H. unfold strip. now rewrite (dropwhile_all _ _ H).
Qed.

Lemma all_dots_dec (s : str) :
  (forall c, In c s -> c = DOT) \/ (exists c, In c s /\ c <> DOT).
Proof.
  induction s as [|c s [IH|(d & Hd & Hne)]].
  - left. intros c [].
  - destruct (N.eq_dec c DOT) as [->|Hc].
    + left. intros d [<-|Hd]; auto.
    + right. exists c. simpl. auto.
  - right. exists d. simpl. auto.
Qed.

(** The sanitized name is empty exactly when the name is made of dots. *)
Lemma sanitize_nil_iff (L : lowering) (s : str) :
  sanitize L s = [] <-> forall c, In c s -> c = DOT.
Proof.
  unfold sanitize. rewrite replace_dot. rewrite <- (lower_dots L). split.
  - intros H c Hin. apply sub_runs_nil in H.
    pose proof (proj1 (filter_nil_iff _ _) H c Hin) as Hc. cbv beta in Hc.
    apply negb_false_iff, char_eqb_eq in Hc. auto.
  - intros H.
    assert (Hf : filter (fun c => negb (char_eqb DOT c)) (lower L s) = []).
    { apply filter_nil_iff. intros c Hin. rewrite (H c Hin).
      now rewrite char_eqb_refl. }
    now rewrite Hf.
Qed.

(** C9, as stated, fails: a name made of a dot is not empty and its
    sanitized form is, whatever [lower] does elsewhere. *)
Lemma C9_sanitize_dot_counterexample :
  ~ (forall (L : lowering) (s : str), s <> [] -> sanitize L s <> []).
Proof.
  intros H. apply (H ascii_lowering (lit ".")); [discriminate|reflexivity].
Qed.

(** C9, amended.  [sanitize] returns a non-empty string exactly for the
    inputs that hold a character other than the dot; in particular it does
    so for every input that holds one. *)
Theorem C9_sanitize_nonempty (L : lowering) (s : str) :
  sanitize L s <> [] <-> exists c, In c s /\ c <> DOT.
Proof.
  rewrite sanitize_nil_iff. split.
  - intros H. destruct (all_dots_dec s) as [Hall|Hex]; [contradiction|assumption].
  - intros (c & Hin & Hc) H. auto.
Qed.

(** A value that starts with a blank and a dot still gives a name. *)
Lemma C9_sanitize_nonempty_witness : sanitize ascii_lowering (lit " .x") <> [].
Proof.
  apply (proj2 (C9_sanitize_nonempty ascii_lowering (lit " .x"))).
  exists (chr "x"). split; [simpl; auto|discriminate].
Defined.

(** ** The page title *)

(** C8, as stated, fails: [replace] removes the keyword and extension
    wherever they stand in the name, not only at its end. *)
Lemma C8_title_suffix_counterexample :
  ~ (forall original_name keyword : str,
       character_page_title original_name keyword
       = NAMESPACE ++ remove_suffix (keyword ++ lit ".png") original_name).
Proof.
  intros H.
  specialize (H (lit "A_证件照.png_B_证件照.png") (lit "_证件照")).
  vm_compute in H. discriminate.
Qed.

(** C8, amended.  The candidate page title is the namespace token
    followed by the name with every occurrence of the keyword and
    extension removed.  When the name ends with them and holds them nowhere
    else, that is the name without this suffix; when the name does not hold
    them, it is the name itself. *)
Theorem C8_title_of_name (original_name keyword : str) :
  character_page_title original_name keyword
    = NAMESPACE ++ replace (keyword ++ lit ".png") (lit "") original_name /\
  (forall base,
     original_name = base ++ keyword ++ lit ".png" ->
     (forall q, q < length base ->
        startswith (keyword ++ lit ".png") (skipn q original_name) = false) ->
     character_page_title original_name keyword = NAMESPACE ++ base) /\
  (contains (keyword ++ lit ".png") original_name = false ->
   character_page_title original_name keyword = NAMESPACE ++ original_name).
Proof.
  assert (Hne : keyword ++ lit ".png" <> []).
  { destruct keyword; discriminate. }
  unfold character_page_title, base_character_name.
  split; [reflexivity|]. split.
  - intros base -> Hocc. f_equal.
    apply replace_only_suffix; assumption.
  - intros Habs. f_equal. now apply replace_absent.
Qed.

(** The title of a portrait whose name holds the keyword once, at its
    end. *)
Lemma C8_title_of_name_witness :
  character_page_title (lit "A_证件照.png") (lit "_证件照")
  = NAMESPACE ++ lit "A".
Proof.
  apply (proj1 (proj2 (C8_title_of_name (lit "A_证件照.png") (lit "_证件照")))
               (lit "A")).
  - reflexivity.
  - intros q Hq. destruct q as [|q]; [reflexivity|]. simpl in Hq. lia.
Defined.

(** ** The naming decision *)




(** C10. When the value matched for the field is made of whitespace only,
    its stripped form is empty and the image keeps its name, as for a
    field that is missing; and whenever the sanitizer is used, the value it
    is given is not empty. *)
Theorem C10_blank_value_falls_back (L : lowering) (api : str -> api_response)
  (img : image) (keyword w t raw : str) (start : nat) :
  page_lookup api (character_page_title (name img) keyword)
    = Wikitext (JString w) ->
  extractTemplate w TEMPLATE_NAME = TemplateSpan t start ->
  field_match t FIELD_NAME = Some raw ->
  forallb isspace raw = true ->
  extractField t FIELD_NAME = Some (lit "") /\
  naming_of api img keyword = Returns UseOriginal /\
  resolveName L api img keyword = Returns (name img) /\
  (forall api' img' keyword' english_name,
     naming_of api' img' keyword' = Returns (UseEnglish english_name) ->
     english_name <> []).
Proof.
  intros Hpage Ht Hraw Hblank.
  assert (Hf : extractField t FIELD_NAME = Some (lit "")).
  { unfold extractField. rewrite Hraw. simpl. now rewrite strip_blank. }
  assert (Hn : naming_of api img keyword = Returns UseOriginal).
  { unfold naming_of, get_template_field, template_field_of. rewrite Hpage.
    destruct w as [|c w]; [reflexivity|]. cbn [truthy negb].
    now rewrite Ht, Hf. }
  repeat split; auto.
  - unfold resolveName. now rewrite Hn.
  - intros api' img' keyword' english_name. unfold naming_of.
    destruct (get_template_field _ _ _) as [|[[|c v]|]]; simpl;
      try discriminate.
    intros H; injection H as <-. discriminate.
Qed.

(** A field whose value is an ideographic space and a no-break space: the
    image keeps its name. *)
Lemma C10_blank_value_falls_back_witness :
  resolveName ascii_lowering
              (fun _ => ApiData (lit "{{禁闭者图鉴|英文名=　 |x=1}}"))
              (mkImage (lit "A_证件照.png") (lit "u")) (lit "_证件照")
  = Returns (lit "A_证件照.png").
Proof.
  apply (C10_blank_value_falls_back ascii_lowering
           (fun _ => ApiData (lit "{{禁闭者图鉴|英文名=　 |x=1}}"))
           (mkImage (lit "A_证件照.png") (lit "u")) (lit "_证件照")
           (lit "{{禁闭者图鉴|英文名=　 |x=1}}")
           (lit "{{禁闭者图鉴|英文名=　 |x=1}}") (lit " ") 0);
    reflexivity.
Defined.

(** ** Comment spans *)

(** No turn of the loop switches [in_comment] on: the only assignment the
    loop makes to it is [False]. *)
Lemma in_comment_never_set (w : str) (st st' : scan_state) (b : bool) :
  loop_body w st = Some (st', b) ->
  in_comment st' = true -> in_comment st = true.
Proof.
  unfold loop_body.
  destruct (str_eqb (slice w (current_index st) (current_index st + 4)) _).
  - intros H; injection H as <- _. discriminate.
  - destruct (in_comment st); [reflexivity|]. simpl.
    destruct (str_eqb _ _); [intros H; injection H as <- _; discriminate|].
    destruct (str_eqb _ _); [intros H; injection H as <- _; discriminate|].
    destruct (nth_error _ _); [|discriminate].
    intros H; injection H as <- _. discriminate.
Qed.

(** C1 (the code departs from it).  On a template whose body holds a
    comment with a closing pair of braces in it, the scan stops at that
    pair: the text returned ends inside the comment, and the field that
    follows the comment is not found. *)
Theorem C1_comment_braces_end_scan :
  extractTemplate (lit "{{禁闭者图鉴|备注=<!-- }} -->|英文名=Zoya}}")
                  TEMPLATE_NAME
    = TemplateSpan (lit "{{禁闭者图鉴|备注=<!-- }}") 0 /\
  get_template_field
    (fun _ => ApiData (lit "{{禁闭者图鉴|备注=<!-- }} -->|英文名=Zoya}}"))
    (lit "禁闭者:Zoya") FIELD_NAME
    = Returns None /\
  get_template_field
    (fun _ => ApiData (lit "{{禁闭者图鉴|备注=|英文名=Zoya}}"))
    (lit "禁闭者:Zoya") FIELD_NAME
    = Returns (Some (lit "Zoya")).
Proof. repeat split. Qed.

(** ** The catalogue filter *)

Lemma contains_empty (s : str) : contains (lit "") s = true.
Proof. destruct s; reflexivity. Qed.

(** Every name contains the empty string, the second literal of line 139:
    nothing passes the filter. *)
Lemma filtered_images_nil (images : list image) : filtered_images images = [].
Proof.
  unfold filtered_images. apply filter_nil_iff. intros img _.
  now rewrite contains_empty, andb_false_r.
Qed.

(** The filter of the program is the one of the specification taken with
    the two literals of line 139 as exclusion substrings. *)
Lemma filterAssets_excluding (assets : list image) (keyword : str) :
  filterAssets assets keyword = filter_excluding EXCLUSIONS assets keyword.
Proof.
  unfold filterAssets, filtered_images, search_all_images, filter_excluding.
  cbn [flat_map]. rewrite app_nil_r.
  induction assets as [|img assets IH]; [reflexivity|].
  cbn [filter].
  destruct (contains keyword (name img) && endswith (lit ".png") (name img));
    cbn [filter andb forallb EXCLUSIONS]; rewrite IH, ?andb_true_r;
    reflexivity.
Qed.

(** With exclusion substrings given, an asset is kept exactly when its
    name holds the keyword, ends with [.png] and holds none of them. *)
Lemma filter_excluding_keeps (exclusions : list str) (assets : list image)
  (keyword : str) (img : image) :
  In img (filter_excluding exclusions assets keyword) <->
  In img assets /\
  contains keyword (name img) = true /\
  endswith (lit ".png") (name img) = true /\
  forall e, In e exclusions -> contains e (name img) = false.
Proof.
  unfold filter_excluding. rewrite filter_In, !andb_true_iff, forallb_forall.
  split.
  - intros (Hin & (Hk & Hp) & He). repeat split; auto.
    intros e Hin'. apply He in Hin'. now apply negb_true_iff.
  - intros (Hin & Hk & Hp & He). repeat split; auto.
    intros e Hin'. apply negb_true_iff. auto.
Qed.

(** C2 (the code departs from it).  On the two assets of the example the
    filter of the program keeps nothing, where the filter with the single
    exclusion substring of the example keeps the first. *)
Theorem C2_filter_keeps_nothing :
  filterAssets [mkImage (lit "x_证件照.png") (lit "u1");
                mkImage (lit "x_证件照_升阶装束.png") (lit "u2")]
               (lit "证件照")
    = [] /\
  filter_excluding [lit "升阶装束"]
    [mkImage (lit "x_证件照.png") (lit "u1");
     mkImage (lit "x_证件照_升阶装束.png") (lit "u2")]
    (lit "证件照")
    = [mkImage (lit "x_证件照.png") (lit "u1")] /\
  forall L api images keyword,
    download_images_with_english_names L api images keyword = Completed [].
Proof.
  repeat split.
  intros L api images keyword. unfold download_images_with_english_names.
  now rewrite filtered_images_nil.
Qed.

(** * Further properties of the code *)

(** ** The sanitizer (lines 161-174) *)

Lemma sub_runs_in (cls : char -> bool) (s : str) :
  forall in_run c,
    In c (sub_runs cls in_run s) ->
    c = chr "_" \/ (In c s /\ cls c = false).
Proof.
  induction s as [|x s IH]; intros in_run c; simpl; [contradiction|].
  destruct (cls x) eqn:Hx.
  - destruct in_run; simpl.
    + intros H. apply IH in H as [H|[H1 H2]]; auto.
    + intros [H|H]; [auto|]. apply IH in H as [H|[H1 H2]]; auto.
  - simpl. intros [<-|H]; [auto|].
    apply IH in H as [H|[H1 H2]]; auto.
Qed.

Lemma sub_runs_id (cls : char -> bool) (s : str) :
  forallb (fun c => negb (cls c)) s = true ->
  forall in_run, sub_runs cls in_run s = s.
Proof.
  induction s as [|x s IH]; simpl; [reflexivity|].
  intros H in_run. apply andb_true_iff in H as [Hx Hs].
  apply negb_true_iff in Hx. rewrite Hx. f_equal. auto.
Qed.

Lemma clean_char_spec (L : lowering) (c : char) :
  clean_char L c = true <->
  reserved_char c = false /\ c <> DOT /\ lower L [c] = [c].
Proof.
  unfold clean_char. rewrite !andb_true_iff, !negb_true_iff.
  rewrite str_eqb_eq, char_eqb_neq. intuition congruence.
Qed.

Lemma lower_underscore (L : lowering) : lower L [chr "_"] = [chr "_"].
Proof. now rewrite (lower_ascii L). Qed.

(** [lower] changes the ASCII capitals. *)
Lemma lower_fixed_not_capital (L : lowering) (c : char) :
  lower L [c] = [c] -> ~ (65 <= c <= 90)%N.
Proof.
  intros H [H1 H2].
  rewrite (lower_ascii L) in H.
  - simpl in H. unfold ascii_lower_char in H.
    apply N.leb_le in H1, H2. rewrite H1, H2 in H. simpl in H.
    injection H as H. lia.
  - simpl. rewrite andb_true_r. apply N.ltb_lt. lia.
Qed.

Lemma sanitize_clean (L : lowering) (s : str) :
  forallb (clean_char L) (sanitize L s) = true.
Proof.
  apply forallb_forall. intros c Hc. apply clean_char_spec.
  unfold sanitize in Hc. rewrite replace_dot in Hc.
  apply sub_runs_in in Hc as [->|[Hin Hres]].
  - repeat split; [discriminate|apply lower_underscore].
  - apply filter_In in Hin as [Hin Hdot].
    apply negb_true_iff, char_eqb_neq in Hdot.
    repeat split; auto. now apply (lower_out L s).
Qed.

Lemma sanitize_fixed (L : lowering) (s : str) :
  forallb (clean_char L) s = true -> sanitize L s = s.
Proof.
  intros H. rewrite forallb_forall in H.
  assert (Hl : lower L s = s).
  { apply lower_in. intros c Hc. now apply H, clean_char_spec in Hc. }
  assert (Hd : filter (fun c => negb (char_eqb DOT c)) s = s).
  { apply forallb_filter_id, forallb_forall. intros c Hc.
    apply H, clean_char_spec in Hc as (_ & Hne & _).
    apply negb_true_iff, char_eqb_neq. congruence. }
  unfold sanitize. rewrite Hl, replace_dot, Hd.
  apply sub_runs_id, forallb_forall. intros c Hc.
  apply H, clean_char_spec in Hc as (Hr & _). now rewrite Hr.
Qed.

Lemma reserved_not_space (c : char) :
  reserved_char c = false ->
  isspace c = false /\ c <> chr "/" /\ c <> chr "\".
Proof.
  intros Hr. repeat split.
  - unfold reserved_char in Hr. now apply orb_false_iff in Hr as [Hs _].
  - intros ->. discriminate.
  - intros ->. discriminate.
Qed.

(** X1. Whatever the value, the sanitized name holds no whitespace (of
    Unicode), none of the reserved characters of line 170, no dot, no
    character [lower] would change and so no ASCII capital. *)
Theorem X1_sanitize_output_clean (L : lowering) (s : str) :
  forall c, In c (sanitize L s) ->
            reserved_char c = false /\ isspace c = false /\
            c <> DOT /\ lower L [c] = [c] /\ ~ (65 <= c <= 90)%N.
Proof.
  intros c Hc.
  pose proof (sanitize_clean L s) as H. rewrite forallb_forall in H.
  apply H, clean_char_spec in Hc as (Hr & Hd & Hl).
  repeat split; auto.
  - now apply reserved_not_space.
  - now apply lower_fixed_not_capital with (L := L).
Qed.

(** A name with a capital, a no-break space and a dot. *)
Lemma X1_sanitize_output_clean_witness :
  reserved_char (chr "_") = false /\ isspace (chr "_") = false /\
  chr "_" <> DOT /\
  lower ascii_lowering [chr "_"] = [chr "_"] /\
  ~ (65 <= chr "_" <= 90)%N.
Proof.
  apply (X1_sanitize_output_clean ascii_lowering (lit "J. D") (chr "_")).
  vm_compute. auto.
Defined.

(** X2. Sanitizing twice is sanitizing once, for every value. *)
Theorem X2_sanitize_idempotent (L : lowering) (s : str) :
  sanitize L (sanitize L s) = sanitize L s.
Proof. apply sanitize_fixed, sanitize_clean. Qed.

(** X3. The sanitizer leaves a value as it is exactly when the value
    holds no whitespace, no reserved character, no dot and no character
    that [lower] changes. *)
Theorem X3_sanitize_fixed_points (L : lowering) (s : str) :
  sanitize L s = s <->
  forall c, In c s ->
            reserved_char c = false /\ c <> DOT /\ lower L [c] = [c].
Proof.
  split.
  - intros H c Hc. apply clean_char_spec.
    pose proof (sanitize_clean L s) as Hcl. rewrite H in Hcl.
    rewrite forallb_forall in Hcl. auto.
  - intros H. apply sanitize_fixed, forallb_forall.
    intros c Hc. apply clean_char_spec. auto.
Qed.

(** X4. When the English name is used, a file name is chosen and it
    holds no whitespace and no reserved character, so no path
    separator. *)
Theorem X4_renamed_file_has_no_reserved_char (L : lowering)
  (api : str -> api_response) (img : image) (keyword english_name : str) :
  naming_of api img keyword = Returns (UseEnglish english_name) ->
  exists filename,
    resolveName L api img keyword = Returns filename /\
    forall c, In c filename ->
              reserved_char c = false /\ isspace c = false /\
              c <> chr "/" /\ c <> chr "\".
Proof.
  intros Hn. unfold resolveName. rewrite Hn.
  exists (sanitize L english_name ++ lit ".png"). split; [reflexivity|].
  intros c Hc.
  assert (Hr : reserved_char c = false).
  { apply in_app_or in Hc as [Hc|Hc].
    - pose proof (sanitize_clean L english_name) as H.
      rewrite forallb_forall in H.
      now apply H, clean_char_spec in Hc as (Hr & _).
    - simpl in Hc. decompose [or] Hc; subst; try reflexivity; contradiction. }
  split; [assumption|]. now apply reserved_not_space.
Qed.

(** A name with a no-break space in it. *)
Lemma X4_renamed_file_has_no_reserved_char_witness :
  exists filename,
    resolveName ascii_lowering
      (fun _ => ApiData (lit "{{禁闭者图鉴|英文名=John Doe}}"))
      (mkImage (lit "A_证件照.png") (lit "u")) (lit "_证件照")
    = Returns filename /\
    forall c, In c filename ->
              reserved_char c = false /\ isspace c = false /\
              c <> chr "/" /\ c <> chr "\".
Proof.
  apply (X4_renamed_file_has_no_reserved_char ascii_lowering
           (fun _ => ApiData (lit "{{禁闭者图鉴|英文名=John Doe}}"))
           (mkImage (lit "A_证件照.png") (lit "u")) (lit "_证件照")
           (lit "John Doe")).
  reflexivity.
Defined.

(** ** The value [get_template_field] returns (lines 96-100) *)

Lemma dropwhile_split (f : char -> bool) (s : str) :
  exists pre, s = pre ++ dropwhile f s.
Proof.
  exists (takewhile f s). apply takewhile_dropwhile.
Qed.

Lemma dropwhile_head (f : char -> bool) (s : str) :
  match dropwhile f s with
  | [] => True
  | c :: _ => f c = false
  end.
Proof. apply takewhile_dropwhile. Qed.

Lemma strip_trimmed (s : str) : trimmed (strip s).
Proof.
  unfold strip, trimmed. rewrite rev_involutive.
  set (a := dropwhile isspace s).
  split; [|apply dropwhile_head].
  destruct (dropwhile_split isspace (rev a)) as (pre & Hpre).
  assert (Ha : a = rev (dropwhile isspace (rev a)) ++ rev pre).
  { rewrite <- rev_app_distr, <- Hpre. now rewrite rev_involutive. }
  destruct (rev (dropwhile isspace (rev a))) as [|c r]; [exact I|].
  pose proof (dropwhile_head isspace s) as Hh. fold a in Hh.
  rewrite Ha in Hh. exact Hh.
Qed.

Lemma strip_incl (s : str) (c : char) : In c (strip s) -> In c s.
Proof.
  unfold strip. intros H. apply in_rev in H.
  destruct (dropwhile_split isspace (rev (dropwhile isspace s))) as (p1 & H1).
  assert (H2 : In c (rev (dropwhile isspace s))).
  { rewrite H1. apply in_or_app. now right. }
  apply in_rev in H2.
  destruct (dropwhile_split isspace s) as (p2 & H3).
  rewrite H3. apply in_or_app. now right.
Qed.

(** What [get_template_field] returns comes from [extractField] on the
    text [extractTemplate] returned for a wikitext that is a non-empty
    string. *)
Lemma get_template_field_some (api : str -> api_response)
  (page_title field_name value : str) :
  get_template_field api page_title field_name = Returns (Some value) ->
  exists w inst start,
    page_lookup api page_title = Wikitext (JString w) /\ w <> [] /\
    extractTemplate w TEMPLATE_NAME = TemplateSpan inst start /\
    extractField inst field_name = Some value.
Proof.
  unfold get_template_field, template_field_of.
  destruct (page_lookup api page_title) as [| |v]; try discriminate.
  destruct (truthy v) eqn:Hv; simpl; [|discriminate].
  destruct v as [| | |w| |]; try discriminate.
  destruct (extractTemplate w TEMPLATE_NAME) as [inst start| | |] eqn:Ht;
    try discriminate.
  intros H; injection H as H.
  exists w, inst, start. repeat split; auto.
  intros ->. discriminate.
Qed.

(** X5. A value [get_template_field] returns has no whitespace (of
    Unicode) at either end and holds no bar, newline, carriage return or
    closing brace. *)
Theorem X5_field_value_shape (api : str -> api_response)
  (page_title field_name value : str) :
  get_template_field api page_title field_name = Returns (Some value) ->
  trimmed value /\
  ~ In (chr "|") value /\ ~ In LF value /\ ~ In CR value /\
  ~ In (chr "}") value.
Proof.
  intros H.
  apply get_template_field_some in H as (w & inst & start & _ & _ & _ & H).
  unfold extractField in H.
  destruct (field_match inst field_name) as [raw|] eqn:Hraw; [|discriminate].
  simpl in H. injection H as <-.
  split; [apply strip_trimmed|].
  apply field_match_reading in Hraw
    as (p & delim & ws1 & ws2 & ws3 & rest & Hsplit & _).
  destruct Hsplit as (_ & _ & _ & _ & _ & _ & _ & Hall & _).
  destruct (value_char_excludes raw Hall) as (H1 & H2 & H3 & H4).
  repeat split; intros Hin; apply strip_incl in Hin; contradiction.
Qed.

(** A value with an ideographic space before it and a no-break space
    after it, before a bar. *)
Lemma X5_field_value_shape_witness :
  trimmed (lit "Alpha Beta").
Proof.
  apply (X5_field_value_shape
           (fun _ => ApiData (lit "{{禁闭者图鉴|英文名 =　Alpha Beta |x=1}}"))
           (lit "禁闭者:A") FIELD_NAME (lit "Alpha Beta")).
  reflexivity.
Defined.

(** ** The catalogue search (lines 117-131) *)

Lemma contains_iff (p s : str) :
  contains p s = true <-> exists a b, s = a ++ p ++ b.
Proof.
  split.
  - induction s as [|c s IH].
    + simpl. rewrite orb_false_r. intros H.
      apply startswith_ex in H as (r & Hr). exists [], r. exact Hr.
    + cbn [contains]. intros H. apply orb_true_iff in H as [H|H].
      * apply startswith_ex in H as (r & Hr). exists [], r. exact Hr.
      * destruct (IH H) as (a & b & ->). exists (c :: a), b. reflexivity.
  - intros (a & b & ->). induction a as [|c a IH].
    + simpl app. destruct (p ++ b) eqn:Hpb; cbn [contains];
        rewrite <- Hpb, startswith_app; reflexivity.
    + cbn [app contains]. rewrite IH. apply orb_true_r.
Qed.

Lemma str_eqb_refl (s : str) : str_eqb s s = true.
Proof. now apply str_eqb_eq. Qed.

Lemma endswith_iff (p s : str) :
  endswith p s = true <-> exists pre, s = pre ++ p.
Proof.
  unfold endswith. rewrite andb_true_iff, Nat.leb_le, str_eqb_eq. split.
  - intros [Hle Hp]. exists (firstn (length s - length p) s).
    rewrite <- (firstn_skipn (length s - length p) s) at 1. now rewrite Hp.
  - intros (pre & ->). rewrite length_app. split; [lia|].
    replace (length pre + length p - length p) with (length pre) by lia.
    rewrite skipn_app, skipn_all, Nat.sub_diag. reflexivity.
Qed.

Lemma search_all_images_concat (pages : list (list image)) (keyword : str) :
  search_all_images pages keyword
  = filter (fun img => contains keyword (name img)
                       && endswith (lit ".png") (name img))
           (concat pages).
Proof.
  unfold search_all_images. induction pages as [|page pages IH];
    [reflexivity|].
  cbn [flat_map concat]. now rewrite filter_app, IH.
Qed.

(** X6. An image is in the result of the search exactly when it is on
    some page of the catalogue, its name holds the keyword somewhere and
    its name ends with [.png]. *)
Theorem X6_search_membership (pages : list (list image)) (keyword : str)
  (img : image) :
  In img (search_all_images pages keyword) <->
  (exists page, In page pages /\ In img page) /\
  (exists a b, name img = a ++ keyword ++ b) /\
  (exists stem, name img = stem ++ lit ".png").
Proof.
  rewrite search_all_images_concat, filter_In, in_concat, andb_true_iff.
  rewrite contains_iff, endswith_iff. tauto.
Qed.

(** X7. The way the catalogue is cut into pages does not matter: the
    result is the one for the same catalogue in a single page, in the
    order of the catalogue. *)
Theorem X7_search_paging_irrelevant (pages : list (list image))
  (keyword : str) :
  search_all_images pages keyword = search_all_images [concat pages] keyword.
Proof.
  rewrite !search_all_images_concat. cbn [concat]. now rewrite app_nil_r.
Qed.

(** ** The opening marker (lines 41-46) *)

Lemma marker_at_iff (w template_name : str) (p : nat) :
  marker_at w template_name p <->
  p <= length w /\
  exists ws rest,
    skipn p w = lit "{{" ++ ws ++ template_name ++ rest /\
    forallb isspace ws = true.
Proof.
  unfold marker_at, template_start_pattern. split; intros [Hp H];
    (split; [assumption|]).
  - apply rmatch_sound in H as (pre & post & Hs & Hm & _).
    simpl in Hm. destruct Hm as (s1 & -> & ws & s2 & Hws & -> & s3 & -> & ->).
    exists ws, post. split; [|assumption].
    rewrite Hs, app_nil_r. simpl. now rewrite <- !app_assoc.
  - destruct H as (ws & rest & Hs & Hws).
    destruct (rmatch_complete (fun _ : str => Some tt)
                [Re.Lit (lit "{{"); Re.Star isspace; Re.Lit template_name]
                (lit "{{" ++ ws ++ template_name ++ []) rest tt)
      as ([] & Hm); [|reflexivity|].
    + simpl. eexists; split; [reflexivity|].
      exists ws, (template_name ++ []). repeat split; auto.
      eexists; split; reflexivity.
    + rewrite Hs. rewrite app_nil_r in Hm.
      now rewrite <- !app_assoc in Hm.
Qed.

Lemma skipn_split (w x : str) (p : nat) :
  p <= length w -> skipn p w = x -> w = firstn p w ++ x.
Proof. intros _ <-. symmetry. apply firstn_skipn. Qed.

Lemma search_finds {A : Type} (m : str -> option A) (s : str) (p : nat)
  (a : A) :
  p <= length s -> m (skipn p s) = Some a ->
  exists q b, q <= p /\ Re.search m 0 s = Some (q, b).
Proof.
  intros Hp Hm. destruct (Re.search m 0 s) as [[q b]|] eqn:Hs.
  - exists q, b. split; [|reflexivity].
    apply search_sound in Hs as (_ & _ & _ & Hmin).
    assert (q <= p \/ p < q) as [Hle|Hlt] by lia; [assumption|].
    rewrite Hmin in Hm by lia. discriminate.
  - rewrite (search_complete m s 0 Hs p Hp) in Hm. discriminate.
Qed.

(** X8. [extractTemplate] answers [NotFoundError] exactly when the text
    cannot be cut as some text, two opening braces, whitespace (possibly
    none), the template name and some text. *)
Theorem X8_not_found_iff_no_marker (w template_name : str) :
  extractTemplate w template_name = NotFoundError <->
  ~ exists pre ws rest,
      w = pre ++ lit "{{" ++ ws ++ template_name ++ rest /\
      forallb isspace ws = true.
Proof.
  unfold extractTemplate.
  destruct (template_start_match w template_name) as [p|] eqn:Hm; split.
  - destruct (while_loop _ _ _); discriminate.
  - intros Hno. exfalso. apply Hno.
    apply template_start_first in Hm as [Hmark _].
    apply marker_at_iff in Hmark as (Hp & ws & rest & Hs & Hws).
    exists (firstn p w), ws, rest. split; [|assumption].
    now apply skipn_split.
  - intros _ (pre & ws & rest & Hw & Hws).
    assert (Hmark : marker_at w template_name (length pre)).
    { apply marker_at_iff. subst w. rewrite length_app. split; [lia|].
      exists ws, rest. split; [|assumption].
      rewrite skipn_app, skipn_all, Nat.sub_diag. reflexivity. }
    destruct Hmark as [Hp Hmark].
    destruct (search_finds _ _ _ _ Hp Hmark) as (q & b & _ & Hs).
    unfold template_start_match in Hm. rewrite Hs in Hm. discriminate.
  - reflexivity.
Qed.

(** X9. The name is matched as a prefix: where the marker of a longer
    name that starts with the template name is found, the marker of the
    template name is found too, at that position or before it. *)
Theorem X9_marker_of_longer_name (w template_name more : str) (p : nat) :
  template_start_match w (template_name ++ more) = Some p ->
  exists q, q <= p /\ template_start_match w template_name = Some q.
Proof.
  intros Hm. apply template_start_first in Hm as [Hmark _].
  apply marker_at_iff in Hmark as (Hp & ws & rest & Hs & Hws).
  assert (Hmark : marker_at w template_name p).
  { apply marker_at_iff. split; [assumption|].
    exists ws, (more ++ rest). split; [|assumption].
    rewrite Hs. now rewrite <- app_assoc. }
  destruct Hmark as [_ Hmark].
  destruct (search_finds _ _ _ _ Hp Hmark) as (q & b & Hq & Hsearch).
  exists q. split; [assumption|].
  unfold template_start_match. now rewrite Hsearch.
Qed.

(** A page that only has a template with a longer name. *)
Lemma X9_marker_of_longer_name_witness :
  exists q, q <= 3 /\
    template_start_match (lit "ab {{ Tx|a=1}}") (lit "T") = Some q.
Proof.
  apply (X9_marker_of_longer_name (lit "ab {{ Tx|a=1}}") (lit "T")
                                  (lit "x") 3).
  reflexivity.
Defined.

(** ** The scan loop (lines 55-82) *)

(** X10. Started with [in_comment] off, the loop ends within as many
    tests of its condition as there are characters from the index to the
    end of the text, and one more: it ends by [break] or because the index
    reached the end, and the read of line 78 is never out of range. *)
Theorem X10_scan_ends_without_fault (w : str) (fuel : nat) :
  forall st,
    in_comment st = false ->
    length w - current_index st < fuel ->
    exists last,
      (while_loop fuel w st = Broke last \/
       while_loop fuel w st = Exhausted last) /\
      current_index st <= current_index last /\
      in_comment last = false.
Proof.
  induction fuel as [|fuel IH]; intros st Hc Hf; [lia|].
  simpl. destruct (current_index st <? length w) eqn:Hlt.
  - apply Nat.ltb_lt in Hlt.
    destruct (live_turn_spec w st Hc Hlt)
      as (st' & b & -> & Hc' & Hi' & _).
    destruct b.
    + exists st'. repeat split; auto. lia.
    + destruct (IH st' Hc') as (last & Hend & Hi & Hcl); [lia|].
      exists last. repeat split; auto. lia.
  - exists st. auto.
Qed.

(** A scan started in the middle of a text, outside any template. *)
Lemma X10_scan_ends_without_fault_witness :
  exists last,
    (while_loop 4 (lit "a}}") (mkScan 0 0 [] false) = Broke last \/
     while_loop 4 (lit "a}}") (mkScan 0 0 [] false) = Exhausted last) /\
    0 <= current_index last /\ in_comment last = false.
Proof.
  apply (X10_scan_ends_without_fault (lit "a}}") 4 (mkScan 0 0 [] false)).
  - reflexivity.
  - simpl. lia.
Defined.


(** ** What a successful scan returns *)

Lemma tokens_app_inv (l : list token) :
  forall s l', tokens s = l ++ l' ->
               exists s', s = spell_all l ++ s' /\ tokens s' = l'.
Proof.
  induction l as [|t l IH]; intros s l' H.
  - exists s. auto.
  - cbn [app] in H. destruct (tokens_head _ _ _ H) as (r & -> & Hr & _).
    destruct (IH r l' Hr) as (s' & -> & Hs').
    exists s'. unfold spell_all. cbn [flat_map].
    now rewrite <- app_assoc.
Qed.

Lemma pending_char (k : nat) (c : char) (l : list token) :
  pending (S k) l -> pending (S k) (TChar c :: l).
Proof.
  intros (l1 & l2 & -> & Hb & Hp).
  exists (TChar c :: l1), l2. repeat split; auto. now constructor.
Qed.

Lemma pending_open (k : nat) (l : list token) :
  pending (S (S k)) l -> pending (S k) (TOpen :: l).
Proof.
  intros (l1 & l2 & -> & Hb1 & m1 & m2 & -> & Hb2 & Hp).
  exists (TOpen :: l1 ++ TClose :: m1), m2. repeat split; auto.
  - cbn [app]. now rewrite <- app_assoc.
  - now constructor.
Qed.

Lemma pending_close (k : nat) (l : list token) :
  pending k l -> pending (S k) (TClose :: l).
Proof.
  intros Hp. exists [], l. repeat split; auto. constructor.
Qed.

(** A scan that ends in [break] went over tokens that close the pairs
    open when it started. *)
Lemma broke_pending (w : str) (fuel : nat) :
  forall st k last,
    in_comment st = false ->
    brace_balance st = Z.of_nat (S k) ->
    while_loop fuel w st = Broke last ->
    exists l,
      tokens (skipn (current_index st) w)
        = l ++ tokens (skipn (current_index last) w) /\
      pending (S k) l /\
      template_text last = template_text st ++ spell_all l.
Proof.
  induction fuel as [|fuel IH]; intros st k last Hc Hb Hrun;
    [discriminate|].
  simpl in Hrun.
  destruct (current_index st <? length w) eqn:Hlt; [|discriminate].
  apply Nat.ltb_lt in Hlt.
  destruct (skipn_cons_inv w _ Hlt) as (c & r & Hs).
  destruct (tokens_nonempty (skipn (current_index st) w)) as (t & l0 & Ht);
    [rewrite Hs; discriminate|].
  destruct (turn_token w st t l0 Hc Ht) as (_ & Hbody & Hl0).
  rewrite Hbody in Hrun. rewrite Ht.
  destruct t.
  - destruct (IH (advance TOpen st) (S k) last eq_refl) as (l & Hl & Hp & Htx);
      [simpl; lia|assumption|].
    exists (TOpen :: l). rewrite Hl0 in Hl. rewrite Hl.
    repeat split; auto using pending_open.
    rewrite Htx. simpl. now rewrite <- app_assoc.
  - destruct k as [|k].
    + rewrite Hb in Hrun. simpl in Hrun. injection Hrun as <-.
      exists [TClose]. rewrite Hl0.
      repeat split; auto using pending_close.
      apply (pending_close 0). reflexivity.
    + assert (Hnz : (brace_balance st - 1 =? 0)%Z = false).
      { apply Z.eqb_neq. lia. }
      rewrite Hnz in Hrun.
      destruct (IH (advance TClose st) k last eq_refl) as (l & Hl & Hp & Htx);
        [simpl; lia|assumption|].
      exists (TClose :: l). rewrite Hl0 in Hl. rewrite Hl.
      repeat split; auto using pending_close.
      rewrite Htx. simpl. now rewrite <- app_assoc.
  - destruct (IH (advance (TChar c0) st) k last eq_refl) as (l & Hl & Hp & Htx);
      [simpl; lia|assumption|].
    exists (TChar c0 :: l). rewrite Hl0 in Hl. rewrite Hl.
    repeat split; auto using pending_char.
    rewrite Htx. simpl. now rewrite <- app_assoc.
Qed.

Lemma startswith_two_hd (a b c : char) (r x : str) :
  hd_error r = hd_error x ->
  startswith [a; b] (c :: r) = startswith [a; b] (c :: x).
Proof.
  destruct r as [|r1 r], x as [|x1 x]; simpl; try discriminate;
    [reflexivity|].
  intros H; injection H as ->. now rewrite !andb_true_r.
Qed.

Lemma spell_cons (t : token) : exists c sp, spell t = c :: sp.
Proof.
  destruct t; [exists 123%N, [123%N]|exists 125%N, [125%N]|simpl; eauto];
    reflexivity.
Qed.

(** A text read as tokens up to a closing token spells a text that is
    read as the same tokens. *)
Lemma tokens_spell_prefix (la : list token) :
  forall s rest,
    tokens s = la ++ TClose :: rest ->
    tokens (spell_all (la ++ [TClose])) = la ++ [TClose].
Proof.
  induction la as [|t la IH]; intros s rest H; [reflexivity|].
  cbn [app] in H. destruct (tokens_head _ _ _ H) as (r & Hs & Hr & Hch).
  specialize (IH r rest Hr).
  unfold spell_all in *. cbn [app flat_map].
  set (x := flat_map spell (la ++ [TClose])) in *.
  assert (Hhd : hd_error r = hd_error x).
  { destruct la as [|t' la].
    - cbn [app] in Hr. destruct (tokens_head _ _ _ Hr) as (r' & -> & _).
      reflexivity.
    - cbn [app] in Hr. destruct (tokens_head _ _ _ Hr) as (r' & -> & _).
      subst x. cbn [app flat_map].
      destruct (spell_cons t') as (c' & sp & ->). reflexivity. }
  destruct t.
  - simpl. destruct x; now rewrite IH.
  - simpl. destruct x; now rewrite IH.
  - destruct Hch as [Ho Hc]. subst s. cbn [spell app] in *.
    change (lit "{{") with [123; 123]%N in Ho.
    change (lit "}}") with [125; 125]%N in Hc.
    rewrite (startswith_two_hd _ _ _ r x Hhd) in Ho.
    rewrite (startswith_two_hd _ _ _ r x Hhd) in Hc.
    destruct x as [|x1 x]; [destruct la; discriminate IH|].
    rewrite tokens_two.
    change (lit "{{") with [123; 123]%N.
    change (lit "}}") with [125; 125]%N.
    match goal with
    | |- (if ?a then _ else if ?b then _ else _) = _ =>
        replace a with false by (symmetry; exact Ho);
        replace b with false by (symmetry; exact Hc)
    end.
    now rewrite IH.
Qed.

(** A returned span is a well-formed instance at the first marker. *)
Lemma extract_span_instance (w template_name text : str) (p : nat) :
  extractTemplate w template_name = TemplateSpan text p ->
  instance_at w template_name p text /\
  (forall q, q < p -> ~ marker_at w template_name q).
Proof.
  unfold extractTemplate.
  destruct (template_start_match w template_name) as [p'|] eqn:Hm;
    [|discriminate].
  destruct (while_loop (scan_fuel w) w (scan_init p')) as [last| | |] eqn:Hrun;
    try discriminate.
  intros H; injection H as <- <-.
  pose proof (proj1 (template_start_first _ _ _) Hm) as [Hmark Hfirst].
  split; [|assumption]. split; [assumption|].
  destruct (template_start_braces _ _ _ Hm) as (r & Hr).
  assert (Ht0 : tokens (skipn (current_index (scan_init p')) w)
                = TOpen :: tokens r).
  { simpl. rewrite Hr. simpl. destruct r; reflexivity. }
  destruct (turn_token w (scan_init p') _ _ eq_refl Ht0) as (Hi & Hbody & Ht1).
  unfold scan_fuel in Hrun. cbn [while_loop] in Hrun.
  apply Nat.ltb_lt in Hi. rewrite Hi, Hbody in Hrun.
  destruct (broke_pending w _ (advance TOpen (scan_init p')) 0 last
              eq_refl eq_refl Hrun)
    as (l & Hl & (l1 & l2 & -> & Hbal & ->) & Htx).
  simpl in Htx.
  assert (Htok : tokens (skipn p' w)
                 = (TOpen :: l1) ++ TClose :: tokens (skipn (current_index last) w)).
  { simpl in Ht0. rewrite Ht0. rewrite Ht1 in Hl. rewrite Hl.
    cbn [app]. now rewrite <- app_assoc. }
  assert (Hsp : template_text last = spell_all ((TOpen :: l1) ++ [TClose])).
  { rewrite Htx. reflexivity. }
  split.
  - exists l1. split; [|assumption].
    rewrite Hsp. apply (tokens_spell_prefix _ _ _ Htok).
  - replace ((TOpen :: l1) ++ TClose :: tokens (skipn (current_index last) w))
      with (((TOpen :: l1) ++ [TClose]) ++ tokens (skipn (current_index last) w))
      in Htok by (now rewrite <- app_assoc).
    destruct (tokens_app_inv _ _ _ Htok) as (post & Hpost & _).
    exists post. now rewrite Hsp.
Qed.

(** X11. The text [extractTemplate] returns is a well-formed instance:
    it starts at the first position where the opening marker matches, it
    is the text found there, and it reads as two opening braces, a
    balanced body and two closing braces. *)
Theorem X11_returned_span_is_well_formed (w template_name text : str)
  (p : nat) :
  extractTemplate w template_name = TemplateSpan text p ->
  instance_at w template_name p text /\
  (forall q, q < p -> ~ marker_at w template_name q).
Proof. apply extract_span_instance. Qed.

(** A template with a nested pair of braces inside other text. *)
Lemma X11_returned_span_is_well_formed_witness :
  well_formed_instance (lit "{{T|a={{b}}|c=d}}").
Proof.
  apply (X11_returned_span_is_well_formed
           (lit "ab{{T|a={{b}}|c=d}}cd") (lit "T")
           (lit "{{T|a={{b}}|c=d}}") 2 eq_refl).
Defined.

(** X12. [extractTemplate] answers [UnbalancedError] exactly when the
    opening marker matches somewhere and no well-formed instance starts at
    the first position where it does. *)
Theorem X12_unbalanced_iff_no_instance (w template_name : str) :
  extractTemplate w template_name = UnbalancedError <->
  exists p,
    marker_at w template_name p /\
    (forall q, q < p -> ~ marker_at w template_name q) /\
    forall inst, ~ instance_at w template_name p inst.
Proof.
  split.
  - intros Hu.
    destruct (template_start_match w template_name) as [p|] eqn:Hm.
    + pose proof (proj1 (template_start_first _ _ _) Hm) as [Hmark Hfirst].
      exists p. split; [assumption|]. split; [assumption|].
      intros inst (_ & Hwf & Hpost).
      rewrite (extract_instance _ _ _ _ Hm Hwf Hpost) in Hu. discriminate.
    + unfold extractTemplate in Hu. rewrite Hm in Hu. discriminate.
  - intros (p & Hmark & Hfirst & Hnone).
    assert (Hm : template_start_match w template_name = Some p).
    { apply template_start_first. auto. }
    destruct (extractTemplate w template_name) as [t p'| | |] eqn:He.
    + exfalso. pose proof (extract_span_instance _ _ _ _ He) as [Hinst _].
      assert (p' = p).
      { unfold extractTemplate in He. rewrite Hm in He.
        destruct (while_loop _ _ _); try discriminate.
        now injection He. }
      subst p'. exact (Hnone t Hinst).
    + unfold extractTemplate in He. rewrite Hm in He.
      destruct (while_loop _ _ _); discriminate.
    + reflexivity.
    + exfalso. exact (extractTemplate_total _ _ He).
Qed.


(** ** The value comes from the template *)



(** ** The comment flag *)

(** X14. [in_comment] is never switched on: in every state the loop goes
    through from a state where it is off, whatever the text, it is off. *)
Theorem X14_in_comment_stays_off (w : str) (fuel : nat) :
  forall st,
    in_comment st = false ->
    Forall (fun st' => in_comment st' = false) (scan_trace fuel w st).
Proof.
  induction fuel as [|fuel IH]; intros st Hc; simpl.
  - constructor; [assumption|constructor].
  - constructor; [assumption|].
    destruct (current_index st <? length w); [|constructor].
    destruct (loop_body w st) as [[st' b]|] eqn:Hbody; [|constructor].
    assert (Hc' : in_comment st' = false).
    { destruct (in_comment st') eqn:E; [|reflexivity].
      rewrite (in_comment_never_set w st st' b Hbody E) in Hc.
      discriminate. }
    destruct b.
    + constructor; [assumption|constructor].
    + apply IH. assumption.
Qed.

(** A page with a comment in its template. *)
Lemma X14_in_comment_stays_off_witness :
  Forall (fun st' => in_comment st' = false)
         (scan_trace 40 (lit "{{T|<!-- note -->a=1}}") (scan_init 0)).
Proof.
  apply (X14_in_comment_stays_off (lit "{{T|<!-- note -->a=1}}") 40
                                  (scan_init 0)).
  reflexivity.
Defined.

(** ** What follows the template *)

Lemma well_formed_ends_with_brace (t : str) :
  well_formed_instance t -> exists t0, t = t0 ++ [chr "}"].
Proof.
  intros (body & Htok & _).
  rewrite <- (spell_tokens t), Htok. unfold spell_all.
  cbn [flat_map]. rewrite flat_map_app. cbn [flat_map spell].
  exists (lit "{{" ++ flat_map spell body ++ [chr "}"]).
  simpl. rewrite <- !app_assoc. reflexivity.
Qed.

Lemma marker_has_no_closing_brace (ws template_name : str) :
  forallb isspace ws = true ->
  ~ In (chr "}") template_name ->
  ~ In (chr "}") (lit "{{" ++ ws ++ template_name).
Proof.
  intros Hws Hn Hin. simpl in Hin.
  destruct Hin as [H|[H|Hin]]; try discriminate.
  apply in_app_or in Hin as [Hin|Hin]; [|contradiction].
  rewrite forallb_forall in Hws. apply Hws in Hin. discriminate.
Qed.

(** X15. When the template name holds no closing brace, the answer of a
    successful extraction depends on the page only up to the end of the
    returned text: whatever is put in place of the rest of the page, the
    same text is returned at the same position. *)
Theorem X15_rest_of_page_irrelevant (w template_name text post' : str)
  (p : nat) :
  ~ In (chr "}") template_name ->
  extractTemplate w template_name = TemplateSpan text p ->
  extractTemplate (firstn (p + length text) w ++ post') template_name
  = TemplateSpan text p.
Proof.
  intros Hn He.
  destruct (extract_span_instance _ _ _ _ He)
    as [(Hmark & Hwf & post & Hpost) Hfirst].
  pose proof Hmark as [Hp _].
  set (pre := firstn p w).
  assert (Hlen : length pre = p) by (apply firstn_length_le; assumption).
  assert (Hw : w = pre ++ text ++ post).
  { rewrite <- Hpost. symmetry. apply firstn_skipn. }
  assert (Hcut : firstn (p + length text) w = pre ++ text).
  { rewrite firstn_add, Hpost, firstn_app, firstn_all, Nat.sub_diag.
    simpl. now rewrite app_nil_r. }
  rewrite Hcut, <- app_assoc.
  destruct (well_formed_ends_with_brace _ Hwf) as (t0 & Ht0).
  assert (Hskip : forall q rest, q <= p ->
            skipn q (pre ++ text ++ rest) = (skipn q pre ++ text) ++ rest).
  { intros q rest Hq. rewrite skipn_app.
    replace (q - length pre) with 0 by lia. simpl.
    now rewrite <- app_assoc. }
  apply extract_instance.
  - apply template_start_first. split.
    + apply marker_at_iff in Hmark as (_ & ws & rest & Hs & Hws).
      apply marker_at_iff. rewrite !length_app. split; [lia|].
      rewrite Hw, Hskip in Hs by lia.
      rewrite Hskip by lia.
      rewrite <- Hlen, skipn_all in Hs |- *. cbn [app] in Hs |- *.
      replace (lit "{{" ++ ws ++ template_name ++ rest)
        with ((lit "{{" ++ ws ++ template_name) ++ rest) in Hs
        by (simpl; now rewrite <- !app_assoc).
      apply app_eq_app in Hs as (l & [[Ht _]|[Hm _]]).
      * exists ws, (l ++ post'). split; [|assumption].
        rewrite Ht. simpl. now rewrite <- !app_assoc.
      * exfalso. apply (marker_has_no_closing_brace ws template_name Hws Hn).
        rewrite Hm, Ht0. apply in_or_app. left. apply in_or_app. right.
        now left.
    + intros q Hq Hmq.
      apply marker_at_iff in Hmq as (_ & ws & rest & Hs & Hws).
      rewrite Hskip in Hs by lia.
      replace (lit "{{" ++ ws ++ template_name ++ rest)
        with ((lit "{{" ++ ws ++ template_name) ++ rest) in Hs
        by (simpl; now rewrite <- !app_assoc).
      apply app_eq_app in Hs as (l & [[Ht _]|[Hm _]]).
      * apply (Hfirst q Hq). apply marker_at_iff. split; [lia|].
        exists ws, (l ++ post). split; [|assumption].
        rewrite Hw, Hskip, Ht by lia. simpl. now rewrite <- !app_assoc.
      * apply (marker_has_no_closing_brace ws template_name Hws Hn).
        rewrite Hm, Ht0. apply in_or_app. left. apply in_or_app. right.
        apply in_or_app. right. now left.
  - assumption.
  - exists post'. rewrite Hskip by lia.
    now rewrite <- Hlen, skipn_all.
Qed.

(** The page of the example of C3 with another end. *)
Lemma X15_rest_of_page_irrelevant_witness :
  extractTemplate
    (firstn (2 + length (lit "{{T|a={{b}}|c=d}}"))
            (lit "ab{{T|a={{b}}|c=d}}cd") ++ lit "}} {{T")
    (lit "T")
  = TemplateSpan (lit "{{T|a={{b}}|c=d}}") 2.
Proof.
  apply (X15_rest_of_page_irrelevant (lit "ab{{T|a={{b}}|c=d}}cd") (lit "T")
           (lit "{{T|a={{b}}|c=d}}") (lit "}} {{T") 2).
  - simpl. intros [H|[]]. discriminate.
  - reflexivity.
Defined.

(** ** The file name of a renamed image *)

(** X16. The file name of a renamed image ends with [.png], and it is
    [.png] alone, with nothing before the extension, exactly when the
    English name is made of dots only. *)
Theorem X16_renamed_file_stem (L : lowering) (api : str -> api_response)
  (img : image) (keyword english_name : str) :
  naming_of api img keyword = Returns (UseEnglish english_name) ->
  exists filename,
    resolveName L api img keyword = Returns filename /\
    endswith (lit ".png") filename = true /\
    (filename = lit ".png" <-> forall c, In c english_name -> c = DOT).
Proof.
  intros Hn. unfold resolveName. rewrite Hn.
  exists (sanitize L english_name ++ lit ".png").
  split; [reflexivity|]. split.
  - apply endswith_iff. eauto.
  - rewrite <- (sanitize_nil_iff L). split.
    + intros H. change (lit ".png") with ([] ++ lit ".png") in H at 2.
      now apply app_inv_tail in H.
    + intros ->. reflexivity.
Qed.

(** A field whose value is three dots. *)
Lemma X16_renamed_file_stem_witness :
  exists filename,
    resolveName ascii_lowering
      (fun _ => ApiData (lit "{{禁闭者图鉴|英文名=...}}"))
      (mkImage (lit "A_证件照.png") (lit "u")) (lit "_证件照")
    = Returns filename /\
    endswith (lit ".png") filename = true /\
    (filename = lit ".png" <-> forall c, In c (lit "...") -> c = DOT).
Proof.
  apply (X16_renamed_file_stem ascii_lowering
           (fun _ => ApiData (lit "{{禁闭者图鉴|英文名=...}}"))
           (mkImage (lit "A_证件照.png") (lit "u")) (lit "_证件照")
           (lit "...") eq_refl).
Defined.
